(** * Firebot WebSocket server manager

    A shallow embedding of [src/server/websocket-server-manager.ts]:
    the message handler installed by [createServer], the registration
    watchdog, [triggerEvent] and the custom-listener registry, together
    with an event-loop model of the runtime that drives them. *)

From Stdlib Require Import ZArith String Ascii List PrimFloat SpecFloat FloatOps.
From stdpp Require Import base option list gmap strings pretty.

#[local] Set Warnings "-register-all".

Local Open Scope Z_scope.
Local Open Scope string_scope.
Local Open Scope list_scope.

(** ** JavaScript values *)

(** The values that [JSON.parse] can produce, plus [undefined] (the
    result of reading a property that is absent).  An object is the list
    of its own properties; [get_field] reads the first binding of a key. *)
Inductive JSValue : Type :=
| JUndefined
| JNull
| JBool (b : bool)
| JNumber (x : float)
| JString (s : string)
| JArray (items : list JSValue)
| JObject (fields : list (string * JSValue)).

(** An [Error] object: its constructor name and its [message]. *)
Record JSError : Type := mkError { errorName : string; message : string }.

(** How an evaluation ends: normally with a value, or by a [throw]. *)
Inductive Completion (A : Type) : Type :=
| Normal (a : A)
| Throw (e : JSError).
Arguments Normal {A} a.
Arguments Throw {A} e.

Definition dquote : string := String (ascii_of_nat 34) EmptyString.

(** [TypeError] raised by [v.key] when [v] is [null] or [undefined]
    (V8's wording). *)
Definition cannot_read (base key : string) : JSError :=
  mkError "TypeError"
    ("Cannot read properties of " ++ base ++ " (reading '" ++ key ++ "')")%string.

(** [TypeError] raised by calling a property that is [undefined]. *)
Definition not_a_function (expr : string) : JSError :=
  mkError "TypeError" (expr ++ " is not a function")%string.

Fixpoint get_field (fields : list (string * JSValue)) (key : string) : JSValue :=
  match fields with
  | [] => JUndefined
  | (k, v) :: rest => if String.eqb k key then v else get_field rest key
  end.

(** [v.key] for the property names the handler reads ([type], [name],
    [id], [data], [pluginName]); none of them is defined on the
    prototypes of strings, numbers, booleans or arrays. *)
Definition get_prop (v : JSValue) (key : string) : Completion JSValue :=
  match v with
  | JUndefined => Throw (cannot_read "undefined" key)
  | JNull => Throw (cannot_read "null" key)
  | JObject fields => Normal (get_field fields key)
  | _ => Normal JUndefined
  end.

(** [v === s] for a string literal [s]. *)
Definition strict_eq_string (v : JSValue) (s : string) : bool :=
  match v with
  | JString t => String.eqb t s
  | _ => false
  end.

(** [v == null]. *)
Definition loose_eq_null (v : JSValue) : bool :=
  match v with
  | JUndefined | JNull => true
  | _ => false
  end.

(** ** The runtime

    Library functions of the JavaScript runtime that the source calls and
    whose code is not part of the repository. *)
Class Runtime : Type := {
  (** [JSON.parse(text)]: a value, or the [SyntaxError] it throws. *)
  JSON_parse : string -> Completion JSValue;
  (** [JSON.stringify(value)] for the frames built by the manager. *)
  JSON_stringify : JSValue -> string;
  (** [String.prototype.toLowerCase]. *)
  toLowerCase : string -> string;
  (** [s.replace(/(\n|\s+)/g, " ")], used by the debug log line. *)
  collapseWhitespace : string -> string;
  (** No JSON text denotes [undefined]. *)
  JSON_parse_defined : forall text, JSON_parse text <> Normal JUndefined
}.

(** ** Effects and the world *)

(** Modelled from the spec: the type [CustomWebSocketHandler] of
    [../types/websocket], which is not among the sources; the spec's
    [PluginHandlerEntry], a name and a callback.  A callback is an
    external function; the model keeps how its call completes. *)
Record CustomWebSocketHandler : Type := mkHandler {
  pluginName : string;
  callback : JSValue -> Completion unit
}.

(** Modelled from the spec: the class [WebSocketClient] of
    [./websocket-client], which is not among the sources; the spec's
    [Connection], a [ws] socket with a role ([type]: unset or ["events"])
    and a registration timer ([registrationTimeout]).  [remoteAddress] is
    the [req.socket.remoteAddress] that the listeners close over. *)
Record WebSocketClient : Type := mkClient {
  remoteAddress : string;
  type : option string;
  registrationTimeout : option nat;
  readyState : Z
}.

Definition CONNECTING : Z := 0.
Definition OPEN : Z := 1.
Definition CLOSING : Z := 2.
Definition CLOSED : Z := 3.

(** A pending timeout of the runtime.  The only callback the source ever
    schedules is the registration watchdog of a socket, so a timer is the
    time it is due and the socket its closure captured. *)
Record Timer : Type := mkTimer { due : Z; target : nat }.

(** What a handler does to the outside world, in program order.  The
    calls to [logger] ([../backend/logwrapper]) are kept as effects. *)
Inductive Effect : Type :=
| WsSend (ws : nat) (payload : string)
| WsClose (ws : nat) (code : Z) (reason : string)
| SetTimeout (handle : nat) (delay : Z)
| ClearTimeout (handle : option nat)
| CallbackCall (plugin : string) (data : JSValue)
| LogDebug (msg : string)
| LogInfo (msg : string)
| LogError (msg : string).

(** The manager, the sockets it has seen and the runtime's timers.
    [sockets] is the heap of socket objects, indexed by identity;
    [server] is [this.server] ([None] until [createServer]) given by its
    [clients] set in insertion order. *)
Record World : Type := mkWorld {
  now : Z;
  sockets : list WebSocketClient;
  server : option (list nat);
  customHandlers : list CustomWebSocketHandler;
  timers : gmap nat Timer;
  timerSeq : nat
}.

Definition set_sockets (w : World) (s : list WebSocketClient) : World :=
  mkWorld (now w) s (server w) (customHandlers w) (timers w) (timerSeq w).
Definition set_server (w : World) (s : option (list nat)) : World :=
  mkWorld (now w) (sockets w) s (customHandlers w) (timers w) (timerSeq w).
Definition set_customHandlers (w : World) (h : list CustomWebSocketHandler) : World :=
  mkWorld (now w) (sockets w) (server w) h (timers w) (timerSeq w).
Definition set_timers (w : World) (t : gmap nat Timer) (n : nat) : World :=
  mkWorld (now w) (sockets w) (server w) (customHandlers w) t n.
Definition set_now (w : World) (t : Z) : World :=
  mkWorld t (sockets w) (server w) (customHandlers w) (timers w) (timerSeq w).

(** ** A state, effect and exception monad *)

Definition M (A : Type) : Type := World -> Completion A * World * list Effect.

Definition ret {A} (a : A) : M A := fun w => (Normal a, w, []).
Definition throw {A} (e : JSError) : M A := fun w => (Throw e, w, []).
Definition bind {A B} (m : M A) (k : A -> M B) : M B :=
  fun w =>
    match m w with
    | (Normal a, w1, e1) =>
        match k a w1 with
        | (r, w2, e2) => (r, w2, e1 ++ e2)
        end
    | (Throw e, w1, e1) => (Throw e, w1, e1)
    end.
(** [try { body } catch (error) { handler error }]. *)
Definition try_catch {A} (body : M A) (handler : JSError -> M A) : M A :=
  fun w =>
    match body w with
    | (Throw e, w1, e1) =>
        match handler e w1 with
        | (r, w2, e2) => (r, w2, e1 ++ e2)
        end
    | other => other
    end.
Definition lift {A} (c : Completion A) : M A := fun w => (c, w, []).
Definition emit (e : Effect) : M unit := fun w => (Normal tt, w, [e]).
Definition get : M World := fun w => (Normal w, w, []).
Definition modify (f : World -> World) : M unit := fun w => (Normal tt, f w, []).

Notation "'let*' x ':=' m 'in' k" := (bind m (fun x => k))
  (at level 10, x pattern, m at level 100, k at level 200).
Notation "m ';;' k" := (bind m (fun _ => k))
  (at level 100, k at level 200, right associativity).

(** ** Socket and timer primitives ([ws] library and Node timers) *)

Definition update_socket (ws : nat) (f : WebSocketClient -> WebSocketClient) : M unit :=
  modify (fun w =>
    match sockets w !! ws with
    | Some c => set_sockets w (<[ws := f c]> (sockets w))
    | None => w
    end).

Definition set_type (t : option string) (c : WebSocketClient) : WebSocketClient :=
  mkClient (remoteAddress c) t (registrationTimeout c) (readyState c).
Definition set_registrationTimeout (h : option nat) (c : WebSocketClient) : WebSocketClient :=
  mkClient (remoteAddress c) (type c) h (readyState c).
Definition set_readyState (s : Z) (c : WebSocketClient) : WebSocketClient :=
  mkClient (remoteAddress c) (type c) (registrationTimeout c) s.

(** [ws.send(payload)] without a callback. *)
Definition ws_send (ws : nat) (payload : string) : M unit :=
  emit (WsSend ws payload).

(** A close frame carries at most 123 bytes of reason. *)
Definition reason_too_long (reason : string) : bool :=
  Nat.ltb 123 (String.length reason).

(** The [RangeError] that [ws.close] throws for a longer reason. *)
Definition close_reason_error : JSError :=
  mkError "RangeError" "The message must not be greater than 123 bytes".

(** [ws.close(code, reason)] of the [ws] library.  A reason of more than
    123 bytes does not fit a close frame: the call throws a [RangeError],
    no close frame is sent and the socket is taken to stay as it was.
    Otherwise the call goes through ([WsClose] records such calls) and
    starts the closing handshake of an open socket. *)
Definition ws_close (ws : nat) (code : Z) (reason : string) : M unit :=
  if reason_too_long reason then throw close_reason_error
  else
    emit (WsClose ws code reason) ;;
    update_socket ws (fun c =>
      if Z.eqb (readyState c) OPEN then set_readyState CLOSING c else c).

(** [setTimeout(cb, delay)] where [cb] is the watchdog of [ws]. *)
Definition setTimeout (ws : nat) (delay : Z) : M nat :=
  let* w := get in
  let h := timerSeq w in
  modify (fun w => set_timers w (<[h := mkTimer (now w + delay) ws]> (timers w)) (S h)) ;;
  emit (SetTimeout h delay) ;;
  ret h.

(** [clearTimeout(handle)]: cancelling a fired, cancelled or undefined
    handle does nothing. *)
Definition clearTimeout (handle : option nat) : M unit :=
  emit (ClearTimeout handle) ;;
  match handle with
  | Some h => modify (fun w => set_timers w (delete h (timers w)) (timerSeq w))
  | None => ret tt
  end.

Definition socket_field {A} (ws : nat) (f : WebSocketClient -> A) (default : A) : M A :=
  let* w := get in
  ret (match sockets w !! ws with Some c => f c | None => default end).

(** ** The manager ([websocket-server-manager.ts]) *)

Section Manager.
Context `{Runtime}.

Definition ResponseMessage (id : JSValue) (name : string) (data : JSValue) : JSValue :=
  JObject [("type", JString "response"); ("id", id);
           ("name", JString name); ("data", data)].

Definition EventMessage (name : string) (data : JSValue) : JSValue :=
  JObject [("type", JString "event"); ("name", JString name); ("data", data)].

(** [sendResponse(ws, messageId, data = null)]. *)
Definition sendResponse (ws : nat) (messageId : JSValue) (data : JSValue) : M unit :=
  let response := ResponseMessage messageId "success" data in
  ws_send ws (JSON_stringify response).

(** [sendError(ws, messageId, errorMessage)]. *)
Definition sendError (ws : nat) (messageId : JSValue) (errorMessage : string) : M unit :=
  let error := ResponseMessage messageId "error" (JString errorMessage) in
  ws_send ws (JSON_stringify error).

(** [v.toLowerCase()] where the source writes [pluginName.toLowerCase()]
    on a value taken from the frame. *)
Definition call_toLowerCase (v : JSValue) : Completion string :=
  match v with
  | JString s => Normal (toLowerCase s)
  | JUndefined => Throw (cannot_read "undefined" "toLowerCase")
  | JNull => Throw (cannot_read "null" "toLowerCase")
  | _ => Throw (not_a_function "pluginName.toLowerCase")
  end.

(** [handlers.find(p => p.pluginName.toLowerCase() === name.toLowerCase())]
    for [name] read from the frame: the predicate runs on each entry in
    turn and may throw. *)
Fixpoint find_plugin (handlers : list CustomWebSocketHandler) (name : JSValue)
  : Completion (option CustomWebSocketHandler) :=
  match handlers with
  | [] => Normal None
  | p :: rest =>
      let lhs := toLowerCase (pluginName p) in
      match call_toLowerCase name with
      | Throw e => Throw e
      | Normal rhs =>
          if String.eqb lhs rhs then Normal (Some p) else find_plugin rest name
      end
  end.

(** [handlers.findIndex(p => p.pluginName.toLowerCase() === name.toLowerCase())]
    for a [name] that is a string; [None] stands for [-1]. *)
Fixpoint findIndex (handlers : list CustomWebSocketHandler) (name : string) : option nat :=
  match handlers with
  | [] => None
  | p :: rest =>
      if String.eqb (toLowerCase (pluginName p)) (toLowerCase name) then Some O
      else option_map S (findIndex rest name)
  end.

(** [handlers.splice(index, 1)]. *)
Fixpoint splice1 (handlers : list CustomWebSocketHandler) (index : nat)
  : list CustomWebSocketHandler :=
  match handlers, index with
  | [], _ => []
  | _ :: rest, O => rest
  | p :: rest, S i => p :: splice1 rest i
  end.

(** The body of [case "invoke"]: the switch on [message.name]. *)
Definition handleInvoke (ws : nat) (message : JSValue) : M unit :=
  let* name := lift (get_prop message "name") in
  if strict_eq_string name "subscribe-events" then
    let* ty := socket_field ws type None in
    if bool_decide (ty <> None) then
      let* id := lift (get_prop message "id") in
      sendError ws id "socket already subscribed"
    else
      let* h := socket_field ws registrationTimeout None in
      clearTimeout h ;;
      update_socket ws (set_type (Some "events")) ;;
      let* addr := socket_field ws remoteAddress EmptyString in
      emit (LogInfo ("Websocket Event Connection from " ++ addr)%string) ;;
      let* id := lift (get_prop message "id") in
      sendResponse ws id JNull
  else if strict_eq_string name "plugin" then
    let* requested := lift (get_prop message "pluginName") in
    if loose_eq_null requested || strict_eq_string requested EmptyString then
      let* id := lift (get_prop message "id") in
      sendError ws id "Must specify pluginName"
    else
      let* w := get in
      let* plugin := lift (find_plugin (customHandlers w) requested) in
      match plugin with
      | Some p =>
          let* data := lift (get_prop message "data") in
          emit (CallbackCall (pluginName p) data) ;;
          lift (callback p data)
      | None =>
          let* id := lift (get_prop message "id") in
          sendError ws id "Unknown plugin name specified"
      end
  else
    let* id := lift (get_prop message "id") in
    sendError ws id "unknown command invocation".

(** The [try] block of the ['message'] listener, after [JSON.parse]. *)
Definition handleMessage (ws : nat) (message : JSValue) : M unit :=
  let* ty := lift (get_prop message "type") in
  if strict_eq_string ty "invoke" then handleInvoke ws message
  else ret tt.

(** The ['message'] listener of a socket. *)
Definition onMessage (ws : nat) (data : string) : M unit :=
  let* addr := socket_field ws remoteAddress EmptyString in
  emit (LogDebug ("Incoming WebSocket message from: " ++ addr
                  ++ ", message data: " ++ collapseWhitespace data)%string) ;;
  try_catch
    (let* message := lift (JSON_parse data) in
     handleMessage ws message)
    (fun error => ws_close ws 4006 (message error)).

(** The callback given to [setTimeout] for socket [ws]. *)
Definition registrationTimedOut (ws : nat) : M unit :=
  let* addr := socket_field ws remoteAddress EmptyString in
  emit (LogInfo ("Unknown Websocket connection timed out from " ++ addr)%string) ;;
  ws_close ws 4000 "Registration timed out".

(** The ['connection'] listener: [ws] is the socket the server has just
    accepted. *)
Definition onConnection (ws : nat) : M unit :=
  let* h := setTimeout ws 5000 in
  update_socket ws (set_registrationTimeout (Some h)).

(** [createServer(httpServer)]. *)
Definition createServer : M unit :=
  modify (fun w => set_server w (Some [])).

(** The body of the [forEach] callback of [triggerEvent] for one client.
    [sendErr c] is what the transport later reports to the callback
    given to [client.send]. *)
Definition each (sendErr : nat -> option JSError) (dataRaw : string) (client : nat) : M unit :=
  let* rs := socket_field client readyState CLOSED in
  let* ty := socket_field client type None in
  if negb (Z.eqb rs 1) || negb (bool_decide (ty = Some "events")) then
    ret tt
  else
    ws_send client dataRaw ;;
    match sendErr client with
    | Some err => emit (LogError (message err))
    | None => ret tt
    end.

Fixpoint forEach (clients : list nat) (f : nat -> M unit) : M unit :=
  match clients with
  | [] => ret tt
  | c :: rest => f c ;; forEach rest f
  end.

(** [triggerEvent(eventType, payload)]. *)
Definition triggerEvent (sendErr : nat -> option JSError)
    (eventType : string) (payload : JSValue) : M unit :=
  let* w := get in
  match server w with
  | None => ret tt
  | Some clients =>
      let message := EventMessage eventType payload in
      let dataRaw := JSON_stringify message in
      forEach clients (each sendErr dataRaw)
  end.

(** [registerCustomWebSocketListener(pluginName, callback)]. *)
Definition registerCustomWebSocketListener (pluginName : string)
    (callback : JSValue -> Completion unit) : M bool :=
  let* w := get in
  match findIndex (customHandlers w) pluginName with
  | None =>
      modify (fun w => set_customHandlers w
                (customHandlers w ++ [mkHandler pluginName callback])) ;;
      emit (LogInfo ("Registered custom WebSocket listener for plugin "
                     ++ dquote ++ pluginName ++ dquote)%string) ;;
      ret true
  | Some _ =>
      emit (LogError ("Custom WebSocket listener " ++ dquote ++ pluginName
                      ++ dquote ++ " already registered")%string) ;;
      ret false
  end.

(** [unregisterCustomWebSocketListener(pluginName)]. *)
Definition unregisterCustomWebSocketListener (pluginName : string) : M bool :=
  let* w := get in
  match findIndex (customHandlers w) pluginName with
  | Some pluginHandlerIndex =>
      modify (fun w => set_customHandlers w
                (splice1 (customHandlers w) pluginHandlerIndex)) ;;
      emit (LogInfo ("Unregistered custom WebSocket listener for plugin "
                     ++ dquote ++ pluginName ++ dquote)%string) ;;
      ret true
  | None =>
      emit (LogError ("Custom WebSocket listener " ++ dquote ++ pluginName
                      ++ dquote ++ " is not registered")%string) ;;
      ret false
  end.

(** ** The event loop

    The runtime delivers events one at a time; each handler runs to
    completion.  The parts played by the [ws] server and by Node's timers
    are written out next to the listeners of the source. *)

(** The server accepts a transport: a new socket object, open, with
    neither [type] nor [registrationTimeout] set, is added to
    [server.clients]. *)
Definition accept (addr : string) : M nat :=
  let* w := get in
  let ws := length (sockets w) in
  modify (fun w =>
    set_server (set_sockets w (sockets w ++ [mkClient addr None None OPEN]))
               (option_map (fun clients => clients ++ [ws]) (server w))) ;;
  ret ws.

(** The transport of [ws] has closed: the socket becomes [CLOSED] and the
    server drops it from [clients].  The source installs no ['close']
    listener, so nothing else runs. *)
Definition transportClosed (ws : nat) : M unit :=
  update_socket ws (set_readyState CLOSED) ;;
  modify (fun w =>
    set_server w (option_map (filter (fun c => c <> ws)) (server w))).

(** A timeout is one-shot: the runtime drops it, then runs its callback. *)
Definition fireTimeout (handle : nat) (t : Timer) : M unit :=
  modify (fun w => set_timers w (delete handle (timers w)) (timerSeq w)) ;;
  registrationTimedOut (target t).

Definition ignore {A} (m : M A) : M unit := m ;; ret tt.

Inductive Event : Type :=
| EvCreateServer
| EvConnection (addr : string)
| EvMessage (ws : nat) (data : string)
| EvTimeout (handle : nat)
| EvClose (ws : nat)
| EvElapse (ms : Z)
| EvTriggerEvent (sendErr : nat -> option JSError) (eventType : string) (payload : JSValue)
| EvRegister (name : string) (cb : JSValue -> Completion unit)
| EvUnregister (name : string).

(** One turn of the event loop; [None] when the runtime cannot deliver
    the event in this world (no server to accept on, a socket that does
    not exist or is already closed, a timeout that is not pending or not
    yet due, time running backwards). *)
Definition step (w : World) (ev : Event)
  : option (Completion unit * World * list Effect) :=
  match ev with
  | EvCreateServer => Some (createServer w)
  | EvConnection addr =>
      match server w with
      | Some _ => Some ((let* ws := accept addr in onConnection ws) w)
      | None => None
      end
  | EvMessage ws data =>
      match sockets w !! ws with
      | Some c =>
          if Z.eqb (readyState c) OPEN || Z.eqb (readyState c) CLOSING
          then Some (onMessage ws data w) else None
      | None => None
      end
  | EvTimeout handle =>
      match timers w !! handle with
      | Some t => if Z.leb (due t) (now w) then Some (fireTimeout handle t w) else None
      | None => None
      end
  | EvClose ws =>
      match sockets w !! ws with
      | Some c =>
          if Z.eqb (readyState c) CLOSED then None else Some (transportClosed ws w)
      | None => None
      end
  | EvElapse ms =>
      if Z.leb 0 ms then Some (modify (fun w => set_now w (now w + ms)) w) else None
  | EvTriggerEvent sendErr eventType payload =>
      Some (triggerEvent sendErr eventType payload w)
  | EvRegister name cb => Some (ignore (registerCustomWebSocketListener name cb) w)
  | EvUnregister name => Some (ignore (unregisterCustomWebSocketListener name) w)
  end.

(** The world when the module is loaded: [new WebSocketServerManager()]. *)
Definition initial : World := mkWorld 0 [] None [] ∅ O.

Inductive reachable : World -> Prop :=
| reachable_initial : reachable initial
| reachable_step w ev r w' effs :
    reachable w -> step w ev = Some (r, w', effs) -> reachable w'.

(** Running a sequence of events, collecting the effects. *)
Fixpoint run (w : World) (evs : list Event) : option (World * list Effect) :=
  match evs with
  | [] => Some (w, [])
  | ev :: rest =>
      match step w ev with
      | Some (_, w1, e1) =>
          match run w1 rest with
          | Some (w2, e2) => Some (w2, e1 ++ e2)
          | None => None
          end
      | None => None
      end
  end.

End Manager.

(** ** Observations on effect lists *)

(** The frames sent, with the socket each was sent on, in order. *)
Definition sent (effs : list Effect) : list (nat * string) :=
  omap (fun e => match e with WsSend ws p => Some (ws, p) | _ => None end) effs.

(** The [ws.close] calls that went through, in order. *)
Definition closed (effs : list Effect) : list (nat * Z * string) :=
  omap (fun e => match e with WsClose ws c r => Some (ws, c, r) | _ => None end) effs.

(** The plugin callbacks invoked, with their argument, in order. *)
Definition called (effs : list Effect) : list (string * JSValue) :=
  omap (fun e => match e with CallbackCall n d => Some (n, d) | _ => None end) effs.

(** The [clearTimeout] calls, in order. *)
Definition cleared (effs : list Effect) : list (option nat) :=
  omap (fun e => match e with ClearTimeout h => Some h | _ => None end) effs.

(** ** Vocabulary of the specification *)

(** A frame of type ["invoke"]. *)
Definition is_invoke (v : JSValue) : bool :=
  match v with
  | JObject fields => strict_eq_string (get_field fields "type") "invoke"
  | _ => false
  end.

(** An invoke whose name is [name]. *)
Definition invokes (name : string) (v : JSValue) : bool :=
  match v with
  | JObject fields =>
      strict_eq_string (get_field fields "type") "invoke"
      && strict_eq_string (get_field fields "name") name
  | _ => false
  end.

(** The field [key] of a frame ([undefined] when absent). *)
Definition field (v : JSValue) (key : string) : JSValue :=
  match v with
  | JObject fields => get_field fields key
  | _ => JUndefined
  end.

(** The state in which a [ws.close] that went through leaves socket [ws]. *)
Definition closing (ws : nat) (w : World) : World :=
  match sockets w !! ws with
  | Some c =>
      set_sockets w (<[ws := if Z.eqb (readyState c) OPEN
                             then set_readyState CLOSING c else c]> (sockets w))
  | None => w
  end.

(** What the [catch] block of the ['message'] listener does with the
    error it caught, after the effects [before]: the socket is closed
    with code 4006 and the error's message, unless the message is too
    long for a close frame, in which case [ws.close] throws. *)
Definition caught (ws : nat) (e : JSError) (w : World) (before : list Effect)
  : Completion unit * World * list Effect :=
  if reason_too_long (message e)
  then (Throw close_reason_error, w, before)
  else (Normal tt, closing ws w, before ++ [WsClose ws 4006 (message e)]).

(** The state in which a successful subscription leaves socket [ws]:
    its watchdog is no longer pending and its role is [events]. *)
Definition subscribing (ws : nat) (w : World) : World :=
  match sockets w !! ws with
  | Some c =>
      mkWorld (now w) (<[ws := set_type (Some "events") c]> (sockets w))
              (server w) (customHandlers w)
              (match registrationTimeout c with
               | Some h => delete h (timers w)
               | None => timers w
               end)
              (timerSeq w)
  | None => w
  end.

Section Vocabulary.
Context `{Runtime}.

(** Case-insensitive equality of plugin names, as the source tests it. *)
Definition same_name (a b : string) : bool :=
  String.eqb (toLowerCase a) (toLowerCase b).

(** [lookup(name)] of the specification: the first entry whose name
    equals [name] case-insensitively. *)
Definition lookup_handler (handlers : list CustomWebSocketHandler) (name : string)
  : option CustomWebSocketHandler :=
  List.find (fun p => same_name (pluginName p) name) handlers.

(** The registered handler that an invoke frame names, if it names one. *)
Definition named_handler (handlers : list CustomWebSocketHandler) (v : JSValue)
  : option CustomWebSocketHandler :=
  if invokes "plugin" v then
    match field v "pluginName" with
    | JString s => if String.eqb s EmptyString then None else lookup_handler handlers s
    | _ => None
    end
  else None.

(** A broadcast recipient: open transport and role [events]. *)
Definition eligible (w : World) (client : nat) : bool :=
  match sockets w !! client with
  | Some c => Z.eqb (readyState c) 1 && bool_decide (type c = Some "events")
  | None => false
  end.

(** The text of the debug line logged for every frame. *)
Definition incoming (w : World) (ws : nat) (data : string) : Effect :=
  LogDebug ("Incoming WebSocket message from: "
            ++ match sockets w !! ws with Some c => remoteAddress c | None => EmptyString end
            ++ ", message data: " ++ collapseWhitespace data)%string.

(** No two entries have names that are equal case-insensitively. *)
Definition distinct_names (handlers : list CustomWebSocketHandler) : Prop :=
  NoDup ((fun p => toLowerCase (pluginName p)) <$> handlers).

(** The error response to a repeated [subscribe-events]. *)
Definition already_subscribed (ws : nat) (v : JSValue) : Effect :=
  WsSend ws (JSON_stringify (ResponseMessage (field v "id") "error"
                               (JString "socket already subscribed"))).

(** What [triggerEvent] does for one recipient. *)
Definition delivery (sendErr : nat -> option JSError) (dataRaw : string) (client : nat)
  : list Effect :=
  WsSend client dataRaw ::
  match sendErr client with
  | Some err => [LogError (message err)]
  | None => []
  end.

(** The line logged by the watchdog of socket [ws]. *)
Definition timed_out (w : World) (ws : nat) : Effect :=
  LogInfo ("Unknown Websocket connection timed out from "
           ++ match sockets w !! ws with
              | Some c => remoteAddress c
              | None => EmptyString
              end)%string.

(** What handling a parsed frame can do.

    Either the world is left as it was and at most one frame is sent or
    one callback called (possibly ending in a throw), or the frame was a
    first [subscribe-events]. *)
Inductive handled (w : World) (ws : nat) (c : WebSocketClient) (v : JSValue)
  : Completion unit -> World -> list Effect -> Prop :=
| handled_ignored :
    is_invoke v = false -> v <> JNull -> v <> JUndefined ->
    handled w ws c v (Normal tt) w []
| handled_no_object e :
    v = JNull \/ v = JUndefined ->
    handled w ws c v (Throw e) w []
| handled_reply name data :
    is_invoke v = true -> named_handler (customHandlers w) v = None ->
    name = "success" \/ name = "error" ->
    (invokes "subscribe-events" v = true -> type c <> None) ->
    handled w ws c v (Normal tt) w
      [WsSend ws (JSON_stringify (ResponseMessage (field v "id") name data))]
| handled_lookup_throws e :
    invokes "plugin" v = true -> named_handler (customHandlers w) v = None ->
    handled w ws c v (Throw e) w []
| handled_callback p r :
    invokes "plugin" v = true -> named_handler (customHandlers w) v = Some p ->
    r = callback p (field v "data") ->
    handled w ws c v r w [CallbackCall (pluginName p) (field v "data")]
| handled_subscribed :
    invokes "subscribe-events" v = true -> type c = None ->
    named_handler (customHandlers w) v = None ->
    handled w ws c v (Normal tt) (subscribing ws w)
      [ClearTimeout (registrationTimeout c);
       LogInfo ("Websocket Event Connection from " ++ remoteAddress c)%string;
       WsSend ws (JSON_stringify (ResponseMessage (field v "id") "success" JNull))].

(** The step function as a relation, one rule per way an event can be
    handled, with the world each rule leaves. *)
Inductive stepped (w : World) : Event -> World -> list Effect -> Prop :=
| stepped_create :
    stepped w EvCreateServer (set_server w (Some [])) []
| stepped_connection addr clients :
    server w = Some clients ->
    stepped w (EvConnection addr)
      (mkWorld (now w)
               (sockets w ++ [mkClient addr None (Some (timerSeq w)) OPEN])
               (Some (clients ++ [length (sockets w)]))
               (customHandlers w)
               (<[timerSeq w := mkTimer (now w + 5000) (length (sockets w))]> (timers w))
               (S (timerSeq w)))
      [SetTimeout (timerSeq w) 5000]
| stepped_message ws data c effs :
    sockets w !! ws = Some c ->
    cleared effs = [] -> closed effs = [] ->
    stepped w (EvMessage ws data) w effs
| stepped_message_fatal ws data c e effs :
    sockets w !! ws = Some c ->
    cleared effs = [] -> closed effs = [(ws, 4006, message e)] ->
    stepped w (EvMessage ws data) (closing ws w) effs
| stepped_message_subscribe ws data c v effs :
    sockets w !! ws = Some c -> type c = None ->
    JSON_parse data = Normal v -> invokes "subscribe-events" v = true ->
    cleared effs = [registrationTimeout c] -> closed effs = [] ->
    stepped w (EvMessage ws data) (subscribing ws w) effs
| stepped_timeout h t :
    timers w !! h = Some t -> due t <= now w ->
    stepped w (EvTimeout h)
      (closing (target t) (set_timers w (delete h (timers w)) (timerSeq w)))
      [timed_out w (target t); WsClose (target t) 4000 "Registration timed out"]
| stepped_close ws c :
    sockets w !! ws = Some c -> readyState c <> CLOSED ->
    stepped w (EvClose ws)
      (mkWorld (now w) (<[ws := set_readyState CLOSED c]> (sockets w))
               (option_map (filter (fun x => x <> ws)) (server w))
               (customHandlers w) (timers w) (timerSeq w))
      []
| stepped_elapse ms :
    0 <= ms -> stepped w (EvElapse ms) (set_now w (now w + ms)) []
| stepped_trigger sendErr eventType payload effs :
    cleared effs = [] -> closed effs = [] ->
    stepped w (EvTriggerEvent sendErr eventType payload) w effs
| stepped_register name cb effs :
    findIndex (customHandlers w) name = None ->
    cleared effs = [] -> closed effs = [] ->
    stepped w (EvRegister name cb)
      (set_customHandlers w (customHandlers w ++ [mkHandler name cb])) effs
| stepped_register_refused name cb i effs :
    findIndex (customHandlers w) name = Some i ->
    cleared effs = [] -> closed effs = [] ->
    stepped w (EvRegister name cb) w effs
| stepped_unregister name i effs :
    findIndex (customHandlers w) name = Some i ->
    cleared effs = [] -> closed effs = [] ->
    stepped w (EvUnregister name)
      (set_customHandlers w (splice1 (customHandlers w) i)) effs
| stepped_unregister_refused name effs :
    findIndex (customHandlers w) name = None ->
    cleared effs = [] -> closed effs = [] ->
    stepped w (EvUnregister name) w effs.

End Vocabulary.

(** Every pending timeout is the watchdog of an existing socket that
    still has no role and holds that timeout's handle. *)
Definition watchdogs_consistent (w : World) : Prop :=
  forall h t, timers w !! h = Some t ->
    (h < timerSeq w)%nat
    /\ exists c, sockets w !! target t = Some c
                 /\ registrationTimeout c = Some h /\ type c = None.

(** A socket keeps its address and its timeout handle, and its role can
    only go from unset to [events]. *)
Definition evolves (c c' : WebSocketClient) : Prop :=
  remoteAddress c' = remoteAddress c
  /\ registrationTimeout c' = registrationTimeout c
  /\ (type c' = type c \/ (type c = None /\ type c' = Some "events")).

(** ** Further invariants of the event loop *)

(** Timeout handles are issued in sequence and no two sockets hold the
    same one. *)
Definition handles_distinct (w : World) : Prop :=
  (forall a c h, sockets w !! a = Some c -> registrationTimeout c = Some h ->
     (h < timerSeq w)%nat)
  /\ (forall a b ca cb h,
        sockets w !! a = Some ca -> sockets w !! b = Some cb ->
        registrationTimeout ca = Some h -> registrationTimeout cb = Some h ->
        a = b).

(** An open socket without a role is under its watchdog: the timeout it
    holds is pending, is its own, and is due within the 5000 ms window. *)
Definition watched (w : World) : Prop :=
  forall ws c, sockets w !! ws = Some c -> type c = None -> readyState c = OPEN ->
    exists h t, registrationTimeout c = Some h /\ timers w !! h = Some t
                /\ target t = ws /\ due t <= now w + 5000.

(** The role of every socket is unset or [events]. *)
Definition roles_known (w : World) : Prop :=
  forall ws c, sockets w !! ws = Some c -> type c = None \/ type c = Some "events".

(** The [ws.close(4000, ...)] calls made on socket [ws]. *)
Definition watchdog_closes (ws : nat) (effs : list Effect) : list (nat * Z * string) :=
  List.filter (fun x => Nat.eqb (fst (fst x)) ws && Z.eqb (snd (fst x)) 4000)
              (closed effs).

(** No pending timeout targets the existing socket [ws]. *)
Definition unwatched (w : World) (ws : nat) : Prop :=
  (ws < length (sockets w))%nat
  /\ forall h t, timers w !! h = Some t -> target t <> ws.

(** ** The built-in loaders

    [backend/effects/builtin-effect-loader.js] and
    [backend/integrations/builtin-integration-loader.js].  Node's
    [require] and the managers' [registerEffect] and
    [registerIntegration] are not among the sources: they are parameters,
    and either may throw.  A loader is modelled by the calls it makes, in
    order, and the state it leaves the manager in. *)
Module Loaders.

(** The calls a loader makes. *)
Inductive Call (Exports : Type) : Type :=
| Require (path : string)
| Register (definition : Exports).
Arguments Require {Exports} path.
Arguments Register {Exports} definition.

Definition requested {Exports} (calls : list (Call Exports)) : list string :=
  omap (fun c => match c with Require p => Some p | _ => None end) calls.

Definition registered {Exports} (calls : list (Call Exports)) : list Exports :=
  omap (fun c => match c with Register d => Some d | _ => None end) calls.

Section Loader.
Variables Exports Manager : Type.
Variable require : string -> Completion Exports.
Variable register : Exports -> Manager -> Completion unit * Manager.

(** [filenames.forEach((filename) => { const definition =
    require(prefix + filename + suffix); manager.register(definition); })]:
    a throw ends the loop. *)
Fixpoint forEachModule (prefix suffix : string) (filenames : list string) (m : Manager)
  : Completion unit * Manager * list (Call Exports) :=
  match filenames with
  | [] => (Normal tt, m, [])
  | filename :: rest =>
      let path := (prefix ++ filename ++ suffix)%string in
      match require path with
      | Throw e => (Throw e, m, [Require path])
      | Normal definition =>
          match register definition m with
          | (Throw e, m1) => (Throw e, m1, [Require path; Register definition])
          | (Normal _, m1) =>
              match forEachModule prefix suffix rest m1 with
              | (r, m2, calls) => (r, m2, Require path :: Register definition :: calls)
              end
          end
      end
  end.

Definition builtinEffects : list string :=
  ["active-user-lists"; "activity-feed-alert"; "add-quote"; "api";
   "chat-feed-alert"; "chat-feed-custom-highlight"; "chat-feed-message-hide";
   "chat"; "clear-chat"; "clear-effects"; "clips";
   "conditional-effects/conditional-effects";
   "conditional-effects/switch-statement"; "comment"; "control-emulation";
   "cooldown-command"; "copy-to-clipboard"; "currency"; "custom-script";
   "custom-variable"; "delay"; "delete-chat-message"; "dice"; "effect-group";
   "eval-js"; "file-writer"; "http-request"; "log-message"; "loop-effects";
   "mark-all-activity-acknowledged"; "moderator-ban"; "moderator-mod";
   "moderator-purge"; "moderator-timeout"; "pause-resume-effect-queue";
   "play-sound"; "random-effect"; "remove-user-metadata"; "reset-timer";
   "retrigger-last-activity"; "run-command"; "run-program";
   "send-custom-websocket-event"; "sequential-effect"; "set-output";
   "set-user-metadata"; "show-toast"; "stop-effect-execution";
   "sync-profile-data"; "text-to-speech"; "toggle-command";
   "toggle-connection"; "toggle-event-set"; "toggle-event";
   "toggle-scheduled-task"; "toggle-timer"; "trigger-manual-effect-queue";
   "update-channel-reward"; "update-counter"; "update-role";
   "update-viewer-rank"].

Definition twitchEffects : list string :=
  ["ad-break"; "announcement"; "approve-reject-channel-reward-redemption";
   "block-unblock"; "create-stream-marker"; "raid"; "set-chat-mode";
   "shield-mode"; "shoutout"; "snooze-ad-break"; "stream-title"; "stream-game";
   "create-poll"; "end-poll";
   "cancel-prediction"; "create-prediction"; "lock-prediction";
   "resolve-prediction"; "update-vip-role"].

Definition integrations : list string :=
  ["aws/aws"; "discord/discord"; "streamelements/streamelements";
   "streamlabs/streamlabs"; "streamloots/streamloots";
   "tipeeestream/tipeeestream"; "extralife/extralife"; "obs/obs-integration"].

(** [loadEffects()]: the built-in effects, then the Twitch effects. *)
Definition loadEffects (m : Manager) : Completion unit * Manager * list (Call Exports) :=
  match forEachModule "./builtin/" EmptyString builtinEffects m with
  | (Normal _, m1, calls1) =>
      match forEachModule "../streaming-platforms/twitch/effects/" EmptyString
                          twitchEffects m1 with
      | (r, m2, calls2) => (r, m2, calls1 ++ calls2)
      end
  | (Throw e, m1, calls1) => (Throw e, m1, calls1)
  end.

(** [loadIntegrations()]. *)
Definition loadIntegrations (m : Manager)
  : Completion unit * Manager * list (Call Exports) :=
  forEachModule "./builtin/" ".js" integrations m.

(** The module paths, in the order the loaders go through them. *)
Definition builtinEffectPaths : list string :=
  List.map (fun f => ("./builtin/" ++ f)%string) builtinEffects.
Definition twitchEffectPaths : list string :=
  List.map (fun f => ("../streaming-platforms/twitch/effects/" ++ f)%string)
           twitchEffects.
Definition integrationPaths : list string :=
  List.map (fun f => ("./builtin/" ++ f ++ ".js")%string) integrations.

(** What is called for one module: [require], then the registration of
    what it returned. *)
Definition attempt (path : string) : list (Call Exports) :=
  Require path ::
  match require path with
  | Normal definition => [Register definition]
  | Throw _ => []
  end.

(** The modules at [paths] load one after the other and take the manager
    from [m] to [m']: each is found by [require], and the registration of
    what it exports returns. *)
Inductive loaded_all : list string -> Manager -> Manager -> Prop :=
| loaded_none m : loaded_all [] m m
| loaded_next path rest definition m m1 m' :
    require path = Normal definition ->
    register definition m = (Normal tt, m1) ->
    loaded_all rest m1 m' ->
    loaded_all (path :: rest) m m'.

(** Loading the module at [path] into manager [m] ends in the throw of
    [e] and leaves the manager [m']: [require] throws and the manager is
    not touched, or the registration of what the module exports throws. *)
Definition fails (e : JSError) (path : string) (m m' : Manager) : Prop :=
  (require path = Throw e /\ m' = m)
  \/ exists definition,
       require path = Normal definition /\ register definition m = (Throw e, m').

(** A loader that went through [paths], starting with manager [m], made
    these calls, ended in [r] and left manager [m']: it tried a prefix of
    [paths], each module in turn.  A normal end means every module was
    tried and loaded; a throw is the throw of the last module tried, all
    before it having loaded. *)
Definition went_through (paths : list string) (m : Manager) (r : Completion unit)
    (m' : Manager) (calls : list (Call Exports)) : Prop :=
  exists tried rest,
    paths = tried ++ rest
    /\ calls = flat_map attempt tried
    /\ (r = Normal tt -> rest = [] /\ loaded_all tried m m')
    /\ (forall e, r = Throw e ->
          exists ok path m0,
            tried = ok ++ [path] /\ loaded_all ok m m0 /\ fails e path m0 m').

End Loader.
End Loaders.

(** ** A runtime to run the model on

    A test double of the runtime: ASCII case folding, a printer for the
    frames, and a parser that knows the frames of [Samples.frames] and
    rejects every other text. *)
Module Samples.

Definition quoted (s : string) : string := (dquote ++ s ++ dquote)%string.

Definition lower (c : ascii) : ascii :=
  let n := nat_of_ascii c in
  if (Nat.leb 65 n && Nat.leb n 90)%bool then ascii_of_nat (n + 32) else c.

Fixpoint lowercase (s : string) : string :=
  match s with
  | EmptyString => EmptyString
  | String c rest => String (lower c) (lowercase rest)
  end.

Definition is_space (c : ascii) : bool :=
  let n := nat_of_ascii c in
  (Nat.eqb n 32 || (Nat.leb 9 n && Nat.leb n 13))%bool.

Fixpoint collapse (skipping : bool) (s : string) : string :=
  match s with
  | EmptyString => EmptyString
  | String c rest =>
      if (skipping && is_space c)%bool then collapse true rest
      else if Nat.eqb (nat_of_ascii c) 10 then String " " (collapse false rest)
      else if is_space c then String " " (collapse true rest)
      else String c (collapse false rest)
  end.

Definition number_text (x : float) : string :=
  match Prim2SF x with
  | S754_zero _ => "0"
  | S754_finite s m e =>
      let sign := if s then "-" else EmptyString in
      if Z.leb 0 e then (sign ++ pretty (Z.pos m * 2 ^ e))%string
      else if Z.eqb (Z.pos m mod 2 ^ (- e)) 0
           then (sign ++ pretty (Z.pos m / 2 ^ (- e)))%string
           else "null"
  | _ => "null"
  end.

Fixpoint join (parts : list string) : string :=
  match parts with
  | [] => EmptyString
  | [p] => p
  | p :: rest => (p ++ "," ++ join rest)%string
  end.

Fixpoint stringify (v : JSValue) : string :=
  match v with
  | JUndefined | JNull => "null"
  | JBool true => "true"
  | JBool false => "false"
  | JNumber x => number_text x
  | JString s => quoted s
  | JArray items => ("[" ++ join (List.map stringify items) ++ "]")%string
  | JObject fields =>
      ("{" ++ join ((fix members (fs : list (string * JSValue)) : list string :=
                       match fs with
                       | [] => []
                       | (_, JUndefined) :: rest => members rest
                       | (k, x) :: rest =>
                           (quoted k ++ ":" ++ stringify x)%string :: members rest
                       end) fields) ++ "}")%string
  end.

Definition subscribe : JSValue :=
  JObject [("type", JString "invoke"); ("id", JNumber 1); ("name", JString "subscribe-events")].
Definition plugin_Foo : JSValue :=
  JObject [("type", JString "invoke"); ("id", JNumber 1); ("name", JString "plugin");
           ("pluginName", JString "Foo"); ("data", JString "hi")].
Definition plugin_empty : JSValue :=
  JObject [("type", JString "invoke"); ("id", JNumber 1); ("name", JString "plugin");
           ("pluginName", JString EmptyString)].
Definition plugin_5 : JSValue :=
  JObject [("type", JString "invoke"); ("id", JNumber 1); ("name", JString "plugin");
           ("pluginName", JNumber 5)].
Definition response_1 : JSValue :=
  JObject [("type", JString "response"); ("id", JNumber 1); ("name", JString "success");
           ("data", JNull)].

Definition values : list JSValue :=
  [JNull; JNumber 42; subscribe; plugin_Foo; plugin_empty; plugin_5; response_1].

Definition frames : list (string * JSValue) :=
  List.map (fun v => (stringify v, v)) values.

Fixpoint parse_in (table : list (string * JSValue)) (text : string) : Completion JSValue :=
  match table with
  | [] => Throw (mkError "SyntaxError" "Unexpected token")
  | (t, v) :: rest => if String.eqb t text then Normal v else parse_in rest text
  end.

Definition parse (text : string) : Completion JSValue := parse_in frames text.

#[export] Instance runtime : Runtime.
Proof.
  refine {| JSON_parse := parse;
            JSON_stringify := stringify;
            toLowerCase := lowercase;
            collapseWhitespace := collapse false |}.
  intros text. unfold parse, frames, values. cbn [List.map parse_in].
  repeat match goal with
         | |- context [String.eqb ?a text] => destruct (String.eqb a text)
         end; discriminate.
Defined.

(** A handler that returns and one that throws. *)
Definition quiet : JSValue -> Completion unit := fun _ => Normal tt.
Definition failing : JSValue -> Completion unit :=
  fun _ => Throw (mkError "Error" "plugin failed").

(** A handler that throws an error whose message has 124 bytes, one more
    than the reason of a close frame can have. *)
Definition long_message : string := string_of_list_ascii (replicate 124 "x"%char).
Definition verbose : JSValue -> Completion unit :=
  fun _ => Throw (mkError "Error" long_message).

(** A started server with one accepted, unregistered socket [0]. *)
Definition accepted : World :=
  mkWorld 0 [mkClient "10.0.0.1" None (Some O) OPEN] (Some [O]) []
          {[ O := mkTimer 5000 O ]} 1.

(** The same after handler [foo] was registered. *)
Definition with_foo : World := set_customHandlers accepted [mkHandler "foo" quiet].

(** [accepted] after handler [foo] was registered with the callback
    that throws the long message. *)
Definition with_verbose : World :=
  mkWorld 0 [mkClient "10.0.0.1" None (Some O) OPEN] (Some [O])
          [mkHandler "foo" verbose] {[ O := mkTimer 5000 O ]} 1.

(** Four tracked sockets: two ready subscribers, a subscriber whose
    transport is closing, and a socket that has not subscribed. *)
Definition crowd : World :=
  mkWorld 100
          [mkClient "10.0.0.1" (Some "events") (Some 0%nat) OPEN;
           mkClient "10.0.0.2" (Some "events") (Some 1%nat) OPEN;
           mkClient "10.0.0.3" (Some "events") (Some 2%nat) CLOSING;
           mkClient "10.0.0.4" None (Some 3%nat) OPEN]
          (Some [0; 1; 2; 3]%nat) [] {[ 3%nat := mkTimer 5050 3 ]} 4.

(** A transport that fails the send to socket [1]. *)
Definition flaky (client : nat) : option JSError :=
  if Nat.eqb client 1 then Some (mkError "Error" "write EPIPE") else None.

(** An invoke with a name the manager does not know, and a second
    runtime whose parser knows it too. *)
Definition ping : JSValue :=
  JObject [("type", JString "invoke"); ("id", JNumber 7); ("name", JString "ping")].

Definition frames2 : list (string * JSValue) :=
  (stringify ping, ping) :: frames.

Definition runtime2 : Runtime.
Proof.
  refine {| JSON_parse := parse_in frames2;
            JSON_stringify := stringify;
            toLowerCase := lowercase;
            collapseWhitespace := collapse false |}.
  intros text. unfold frames2, frames, values. cbn [List.map parse_in].
  repeat match goal with
         | |- context [String.eqb ?a text] => destruct (String.eqb a text)
         end; discriminate.
Defined.

(** A module system in which [./builtin/api] cannot be found, and a
    manager that counts its registrations. *)
Definition require_but_api (path : string) : Completion string :=
  if String.eqb path "./builtin/api"
  then Throw (mkError "Error" "Cannot find module")
  else Normal path.

Definition count_registration (definition : string) (count : nat)
  : Completion unit * nat :=
  (Normal tt, S count).

(** A manager that counts its registrations and refuses the definition
    of the Discord integration. *)
Definition refuse_discord (definition : string) (count : nat)
  : Completion unit * nat :=
  if String.eqb definition "./builtin/discord/discord.js"
  then (Throw (mkError "TypeError" "invalid integration"), count)
  else (Normal tt, S count).

End Samples.

(** * Properties *)

Ltac unfold_m :=
  unfold sendError, sendResponse, ws_send, ws_close, clearTimeout, update_socket,
    socket_field, try_catch, bind, lift, emit, get, ret, modify, throw in *.

(** Symbolic execution: compute, and use the equations in context for
    the lookups and tests the computation is stuck on. *)
Ltac mrun :=
  unfold_m;
  repeat (progress (simpl;
    repeat match goal with
           | Heq : ?l = _ |- context [?l] => rewrite Heq
           end)).

Section Handler.
Context `{Runtime}.

(** *** The message handler, branch by branch *)

Lemma lookup_insert_same {A} (l : list A) i x y :
  l !! i = Some y -> <[i := x]> l !! i = Some x.
Proof. intros Hl. apply list_lookup_insert_eq. by eapply lookup_lt_Some. Qed.

Lemma handleInvoke_subscribe_fresh w ws c fields :
  sockets w !! ws = Some c -> type c = None ->
  strict_eq_string (get_field fields "name") "subscribe-events" = true ->
  handleInvoke ws (JObject fields) w =
    (Normal tt, subscribing ws w,
     [ClearTimeout (registrationTimeout c);
      LogInfo ("Websocket Event Connection from " ++ remoteAddress c)%string;
      WsSend ws (JSON_stringify (ResponseMessage (get_field fields "id") "success" JNull))]).
Proof.
  intros Hws Hty Hname.
  pose proof (lookup_insert_same _ _ (set_type (Some "events") c) _ Hws) as Hins.
  unfold handleInvoke, subscribing.
  destruct (registrationTimeout c) as [h|] eqn:Hh; mrun; reflexivity.
Qed.

Lemma handleInvoke_subscribe_again w ws c fields :
  sockets w !! ws = Some c -> type c <> None ->
  strict_eq_string (get_field fields "name") "subscribe-events" = true ->
  handleInvoke ws (JObject fields) w =
    (Normal tt, w,
     [WsSend ws (JSON_stringify (ResponseMessage (get_field fields "id") "error"
                                   (JString "socket already subscribed")))]).
Proof.
  intros Hws Hty Hname.
  unfold handleInvoke. mrun.
  rewrite bool_decide_eq_true_2 by done. reflexivity.
Qed.

Lemma find_plugin_string handlers s :
  find_plugin handlers (JString s) = Normal (lookup_handler handlers s).
Proof.
  induction handlers as [|p rest IH]; simpl; [reflexivity|].
  unfold same_name. destruct (String.eqb _ _); [reflexivity|exact IH].
Qed.

Lemma find_plugin_not_string p rest v :
  loose_eq_null v = false -> (forall s, v <> JString s) ->
  find_plugin (p :: rest) v = Throw (not_a_function "pluginName.toLowerCase").
Proof.
  intros Hnull Hstr.
  destruct v; simpl in *; try congruence. exfalso. by eapply Hstr.
Qed.

Lemma plugin_not_subscribe v :
  strict_eq_string v "plugin" = true ->
  strict_eq_string v "subscribe-events" = false.
Proof.
  destruct v; try discriminate. simpl. intros Heq.
  apply String.eqb_eq in Heq. by subst.
Qed.

Lemma handleInvoke_plugin_missing w ws fields :
  strict_eq_string (get_field fields "name") "plugin" = true ->
  loose_eq_null (get_field fields "pluginName")
  || strict_eq_string (get_field fields "pluginName") EmptyString = true ->
  handleInvoke ws (JObject fields) w =
    (Normal tt, w,
     [WsSend ws (JSON_stringify (ResponseMessage (get_field fields "id") "error"
                                   (JString "Must specify pluginName")))]).
Proof.
  intros Hname Hmissing. pose proof (plugin_not_subscribe _ Hname) as Hsub.
  unfold handleInvoke. mrun. reflexivity.
Qed.

Lemma handleInvoke_plugin_lookup w ws fields :
  strict_eq_string (get_field fields "name") "plugin" = true ->
  loose_eq_null (get_field fields "pluginName")
  || strict_eq_string (get_field fields "pluginName") EmptyString = false ->
  handleInvoke ws (JObject fields) w =
    match find_plugin (customHandlers w) (get_field fields "pluginName") with
    | Normal (Some p) =>
        (callback p (get_field fields "data"), w,
         [CallbackCall (pluginName p) (get_field fields "data")])
    | Normal None =>
        (Normal tt, w,
         [WsSend ws (JSON_stringify (ResponseMessage (get_field fields "id") "error"
                                       (JString "Unknown plugin name specified")))])
    | Throw e => (Throw e, w, [])
    end.
Proof.
  intros Hname Hgiven. pose proof (plugin_not_subscribe _ Hname) as Hsub.
  unfold handleInvoke. mrun.
  destruct (find_plugin _ _) as [[p|]|e]; simpl; try reflexivity.
Qed.

Lemma handleInvoke_other w ws fields :
  strict_eq_string (get_field fields "name") "subscribe-events" = false ->
  strict_eq_string (get_field fields "name") "plugin" = false ->
  handleInvoke ws (JObject fields) w =
    (Normal tt, w,
     [WsSend ws (JSON_stringify (ResponseMessage (get_field fields "id") "error"
                                   (JString "unknown command invocation")))]).
Proof. intros Hs Hp. unfold handleInvoke. mrun. reflexivity. Qed.

Lemma handleMessage_invoke w ws v :
  is_invoke v = true -> handleMessage ws v w = handleInvoke ws v w.
Proof.
  destruct v; try discriminate. simpl. intros Hty.
  unfold handleMessage. unfold bind at 1. unfold lift at 1. simpl. rewrite Hty.
  destruct (handleInvoke _ _ _) as [[r w'] effs]. reflexivity.
Qed.

Lemma handleMessage_ignored w ws v :
  v <> JNull -> v <> JUndefined -> is_invoke v = false ->
  handleMessage ws v w = (Normal tt, w, []).
Proof.
  intros Hnull Hundef Hty. unfold handleMessage.
  destruct v; try congruence; simpl in *; mrun; reflexivity.
Qed.

Lemma handleMessage_null w ws :
  handleMessage ws JNull w = (Throw (cannot_read "null" "type"), w, []).
Proof. reflexivity. Qed.

Lemma ws_close_caught ws e w :
  ws_close ws 4006 (message e) w = caught ws e w [].
Proof.
  unfold ws_close, caught, closing. destruct (reason_too_long (message e)).
  - reflexivity.
  - destruct (sockets w !! ws) as [c|] eqn:Hws; mrun; reflexivity.
Qed.

Lemma onMessage_parse_error w ws data e :
  JSON_parse data = Throw e ->
  onMessage ws data w = caught ws e w [incoming w ws data].
Proof.
  intros Hparse. unfold onMessage.
  unfold bind at 1. unfold socket_field at 1. unfold bind at 1. simpl.
  unfold bind at 1. unfold emit at 1. simpl.
  unfold try_catch. unfold bind at 1. unfold lift at 1. rewrite Hparse.
  rewrite ws_close_caught. unfold caught, incoming.
  destruct (reason_too_long (message e)); reflexivity.
Qed.

Lemma onMessage_parsed w ws data v :
  JSON_parse data = Normal v ->
  onMessage ws data w =
    match handleMessage ws v w with
    | (Normal _, w1, e1) => (Normal tt, w1, incoming w ws data :: e1)
    | (Throw e, w1, e1) => caught ws e w1 (incoming w ws data :: e1)
    end.
Proof.
  intros Hparse. unfold onMessage.
  unfold bind at 1. unfold socket_field at 1. unfold bind at 1. simpl.
  unfold bind at 1. unfold emit at 1. simpl.
  unfold try_catch. unfold bind at 1. unfold lift at 1. rewrite Hparse.
  destruct (handleMessage ws v w) as [[[[]|e] w1] e1]; [reflexivity|].
  rewrite ws_close_caught. unfold caught, incoming.
  destruct (reason_too_long (message e)); simpl; rewrite ?app_nil_r; reflexivity.
Qed.

Lemma named_handler_subscribe handlers v :
  invokes "subscribe-events" v = true -> named_handler handlers v = None.
Proof.
  unfold named_handler. destruct v; simpl; try done.
  destruct (strict_eq_string (get_field fields "type") "invoke"); simpl; [|done].
  destruct (get_field fields "name"); simpl; try done.
  destruct (String.eqb_spec s "subscribe-events"); [subst; done|done].
Qed.

Lemma handleMessage_handled w ws c v :
  sockets w !! ws = Some c ->
  exists r w1 e1, handleMessage ws v w = (r, w1, e1) /\ handled w ws c v r w1 e1.
Proof.
  intros Hws.
  destruct (is_invoke v) eqn:Hinv; cycle 1.
  { destruct v; try (eexists _, _, _; split;
      [apply handleMessage_ignored; congruence | by constructor]).
    - eexists _, _, _. split; [reflexivity|]. constructor. by right.
    - eexists _, _, _. split; [reflexivity|]. constructor. by left. }
  rewrite handleMessage_invoke by done.
  destruct v as [| | | | | |fields]; try discriminate. simpl in Hinv.
  destruct (strict_eq_string (get_field fields "name") "subscribe-events") eqn:Hsub.
  { assert (invokes "subscribe-events" (JObject fields) = true) as Hinvokes
      by (simpl; by rewrite Hinv, Hsub).
    destruct (type c) as [t|] eqn:Hty.
    - eexists _, _, _. split.
      + apply (handleInvoke_subscribe_again w ws c); [done|congruence|done].
      + apply handled_reply; [done|by apply named_handler_subscribe|by right|].
        intros _. congruence.
    - eexists _, _, _. split.
      + by apply (handleInvoke_subscribe_fresh w ws c).
      + apply handled_subscribed; auto using named_handler_subscribe. }
  destruct (strict_eq_string (get_field fields "name") "plugin") eqn:Hplug; cycle 1.
  { eexists _, _, _. split; [by apply handleInvoke_other|].
    apply handled_reply; [done| |by right|].
    - unfold named_handler. simpl. by rewrite Hinv, Hplug.
    - simpl. rewrite Hsub, andb_false_r. discriminate. }
  assert (invokes "plugin" (JObject fields) = true) as Hinvokes
    by (simpl; by rewrite Hinv, Hplug).
  assert (forall P : Prop, invokes "subscribe-events" (JObject fields) = true -> P) as Hnosub
    by (simpl; rewrite Hsub, andb_false_r; discriminate).
  destruct (loose_eq_null (get_field fields "pluginName")
            || strict_eq_string (get_field fields "pluginName") EmptyString) eqn:Hpn.
  { eexists _, _, _. split; [by apply handleInvoke_plugin_missing|].
    apply handled_reply; [done| |by right|by apply Hnosub].
    unfold named_handler. rewrite Hinvokes. simpl.
    destruct (get_field fields "pluginName"); simpl in *; try done.
    by rewrite Hpn. }
  rewrite handleInvoke_plugin_lookup by done.
  destruct (get_field fields "pluginName") as [| | | |s| |] eqn:Hfield;
    try discriminate.
  3:{ rewrite find_plugin_string. simpl in Hpn.
      assert (named_handler (customHandlers w) (JObject fields)
              = lookup_handler (customHandlers w) s) as Hnamed.
      { unfold named_handler. rewrite Hinvokes. simpl. by rewrite Hfield, Hpn. }
      destruct (lookup_handler (customHandlers w) s) as [p|] eqn:Hlook.
      - eexists _, _, _. split; [reflexivity|].
        by apply handled_callback.
      - eexists _, _, _. split; [reflexivity|].
        apply handled_reply; [done|done|by right|by apply Hnosub]. }
  all: assert (named_handler (customHandlers w) (JObject fields) = None) as Hnamed
    by (unfold named_handler; rewrite Hinvokes; simpl; by rewrite Hfield).
  all: destruct (customHandlers w) as [|p rest] eqn:Hhandlers;
    rewrite <- Hhandlers in Hnamed; simpl;
    eexists _, _, _; (split; [reflexivity|]);
    first [ by apply handled_reply; [done|done|by right|by apply Hnosub]
          | by apply handled_lookup_throws ].
Qed.

Lemma invokes_object name v :
  invokes name v = true ->
  exists fields, v = JObject fields
    /\ strict_eq_string (get_field fields "type") "invoke" = true
    /\ strict_eq_string (get_field fields "name") name = true.
Proof.
  destruct v; try discriminate. simpl. intros [? ?]%andb_true_iff. eauto.
Qed.

Lemma invokes_is_invoke name v : invokes name v = true -> is_invoke v = true.
Proof. intros (fields & -> & Hty & _)%invokes_object. exact Hty. Qed.

(** *** Frames of [closing] and [subscribing] *)

Lemma closing_other ws w ws' :
  ws' <> ws -> sockets (closing ws w) !! ws' = sockets w !! ws'.
Proof.
  intros Hne. unfold closing. destruct (sockets w !! ws); [|done].
  simpl. by apply list_lookup_insert_ne.
Qed.

Lemma closing_same ws w c :
  sockets w !! ws = Some c ->
  sockets (closing ws w) !! ws
  = Some (if Z.eqb (readyState c) OPEN then set_readyState CLOSING c else c).
Proof.
  intros Hws. unfold closing. rewrite Hws. simpl. by eapply lookup_insert_same.
Qed.

Lemma closing_rest ws w :
  server (closing ws w) = server w
  /\ customHandlers (closing ws w) = customHandlers w
  /\ timers (closing ws w) = timers w
  /\ timerSeq (closing ws w) = timerSeq w
  /\ now (closing ws w) = now w
  /\ length (sockets (closing ws w)) = length (sockets w).
Proof.
  unfold closing. destruct (sockets w !! ws); simpl; rewrite ?length_insert; done.
Qed.

Lemma subscribing_other ws w ws' :
  ws' <> ws -> sockets (subscribing ws w) !! ws' = sockets w !! ws'.
Proof.
  intros Hne. unfold subscribing. destruct (sockets w !! ws); [|done].
  simpl. by apply list_lookup_insert_ne.
Qed.

Lemma subscribing_same ws w c :
  sockets w !! ws = Some c ->
  sockets (subscribing ws w) !! ws = Some (set_type (Some "events") c).
Proof.
  intros Hws. unfold subscribing. rewrite Hws. simpl. by eapply lookup_insert_same.
Qed.

End Handler.

(** ** The message protocol handler *)

Section Protocol.
Context `{Runtime}.

(** C10: a frame that parses but is not an object of type ["invoke"]
    only produces the debug line: nothing is sent, nothing is closed and
    the world is unchanged; the one exception is a frame that parses to
    [null], for which reading [message.type] throws and the socket is
    closed with code 4006 and that error's message. *)
Theorem other_frames_ignored w ws data v :
  JSON_parse data = Normal v -> is_invoke v = false ->
  (v <> JNull ->
   onMessage ws data w = (Normal tt, w, [incoming w ws data]))
  /\ (v = JNull ->
      onMessage ws data w =
        (Normal tt, closing ws w,
         [incoming w ws data;
          WsClose ws 4006 (message (cannot_read "null" "type"))])).
Proof.
  intros Hparse Hinv. split.
  - intros Hnull. rewrite (onMessage_parsed _ _ _ _ Hparse).
    rewrite handleMessage_ignored; [reflexivity|done| |done].
    intros ->. by eapply JSON_parse_defined.
  - intros ->. rewrite (onMessage_parsed _ _ _ _ Hparse).
    by rewrite handleMessage_null.
Qed.

(** When [JSON.parse] throws, or handling the parsed frame throws, an
    error whose message fits a close frame, the listener completes
    normally after [ws.close(4006, error.message)] on the socket of the
    frame; nothing is sent, that socket is the only one touched, and the
    server, the registry and the timers are as before. *)
Lemma fatal_close w ws c data e :
  sockets w !! ws = Some c ->
  reason_too_long (message e) = false ->
  JSON_parse data = Throw e
  \/ (exists v w1 e1, JSON_parse data = Normal v
                      /\ handleMessage ws v w = (Throw e, w1, e1)) ->
  (exists effs,
     onMessage ws data w = (Normal tt, closing ws w, effs)
     /\ closed effs = [(ws, 4006, message e)]
     /\ sent effs = [])
  /\ (forall ws', ws' <> ws -> sockets (closing ws w) !! ws' = sockets w !! ws')
  /\ server (closing ws w) = server w
  /\ customHandlers (closing ws w) = customHandlers w
  /\ timers (closing ws w) = timers w.
Proof.
  intros Hws Hshort Hfail.
  split; [|split; [by apply closing_other|by destruct (closing_rest ws w) as (?&?&?&_)]].
  destruct Hfail as [Hparse|(v & w1 & e1 & Hparse & Hthrow)].
  - rewrite (onMessage_parse_error _ _ _ _ Hparse). unfold caught.
    rewrite Hshort. by eexists.
  - rewrite (onMessage_parsed _ _ _ _ Hparse), Hthrow. unfold caught.
    rewrite Hshort.
    destruct (handleMessage_handled w ws c v Hws) as (r & w2 & e2 & Hrun & Hcase).
    rewrite Hthrow in Hrun. injection Hrun as <- <- <-.
    inversion Hcase; subst; by eexists.
Qed.

(** C1 (amended): an invoke frame handled without an exception is
    answered by exactly one response frame, sent on the socket it came
    from: the serialized object with [type] ["response"], the frame's
    [id], [name] ["success"] or ["error"] and a [data] -- unless the
    frame names a registered plugin handler: then that handler's
    callback is called once with the frame's [data] and no frame is
    sent. *)
Theorem invoke_answered_once w ws c data v :
  sockets w !! ws = Some c ->
  JSON_parse data = Normal v -> is_invoke v = true ->
  fst (fst (handleMessage ws v w)) = Normal tt ->
  exists w' effs,
    onMessage ws data w = (Normal tt, w', effs)
    /\ closed effs = []
    /\ match named_handler (customHandlers w) v with
       | Some p =>
           sent effs = [] /\ called effs = [(pluginName p, field v "data")]
       | None =>
           exists name payload,
             (name = "success" \/ name = "error")
             /\ sent effs =
                  [(ws, JSON_stringify
                          (JObject [("type", JString "response");
                                    ("id", field v "id");
                                    ("name", JString name);
                                    ("data", payload)]))]
             /\ called effs = []
       end.
Proof.
  intros Hws Hparse Hinv Hok.
  rewrite (onMessage_parsed _ _ _ _ Hparse).
  destruct (handleMessage_handled w ws c v Hws) as (r & w1 & e1 & Hrun & Hcase).
  rewrite Hrun in *. simpl in Hok. subst r.
  inversion Hcase; subst; try congruence.
  - eexists _, _. split; [reflexivity|]. split; [done|].
    match goal with Hn : named_handler _ _ = None |- _ => rewrite Hn end.
    by eexists _, _.
  - eexists _, _. split; [reflexivity|]. split; [done|].
    match goal with Hn : named_handler _ _ = Some _ |- _ => rewrite Hn end.
    done.
  - eexists _, _. split; [reflexivity|]. split; [done|].
    match goal with Hn : named_handler _ _ = None |- _ => rewrite Hn end.
    eexists "success", _. split; [by left|done].
Qed.

(** C5 (amended): for an invoke frame named ["plugin"]: when
    [pluginName] is absent, [null] or the empty string the error response
    "Must specify pluginName" is sent; when it is a non-empty string the
    first handler whose name equals it case-insensitively has its
    callback called once with the frame's [data] and no frame is sent
    (if the callback returns, nothing else happens; if it throws an
    error whose message fits a close frame, the socket is closed with
    4006 and that message), and when there is no such handler the error
    response "Unknown plugin name specified" is sent.  When [pluginName]
    is any other value, the same error response is sent if no handler is
    registered at all; otherwise the comparison throws and the socket is
    closed with 4006.  An error response is the serialized object with
    [type] ["response"], the frame's [id], [name] ["error"] and the text
    as [data]. *)
Theorem plugin_invoke w ws data v :
  JSON_parse data = Normal v -> invokes "plugin" v = true ->
  let requested := field v "pluginName" in
  let reply text :=
    WsSend ws (JSON_stringify
                 (JObject [("type", JString "response");
                           ("id", field v "id");
                           ("name", JString "error");
                           ("data", JString text)])) in
  (loose_eq_null requested = true \/ requested = JString EmptyString ->
   onMessage ws data w =
     (Normal tt, w, [incoming w ws data; reply "Must specify pluginName"]))
  /\ (forall s, requested = JString s -> s <> EmptyString ->
      match lookup_handler (customHandlers w) s with
      | Some p =>
          let call := CallbackCall (pluginName p) (field v "data") in
          (exists r w' effs,
             onMessage ws data w = (r, w', effs)
             /\ called effs = [(pluginName p, field v "data")]
             /\ sent effs = [])
          /\ (callback p (field v "data") = Normal tt ->
              onMessage ws data w = (Normal tt, w, [incoming w ws data; call]))
          /\ (forall e, callback p (field v "data") = Throw e ->
              reason_too_long (message e) = false ->
              onMessage ws data w =
                (Normal tt, closing ws w,
                 [incoming w ws data; call; WsClose ws 4006 (message e)]))
      | None =>
          onMessage ws data w =
            (Normal tt, w, [incoming w ws data; reply "Unknown plugin name specified"])
      end)
  /\ (loose_eq_null requested = false -> (forall s, requested <> JString s) ->
      match customHandlers w with
      | [] =>
          onMessage ws data w =
            (Normal tt, w, [incoming w ws data; reply "Unknown plugin name specified"])
      | _ :: _ =>
          onMessage ws data w =
            (Normal tt, closing ws w,
             [incoming w ws data;
              WsClose ws 4006 (message (not_a_function "pluginName.toLowerCase"))])
      end).
Proof.
  intros Hparse Hplug requested reply.
  pose proof (invokes_is_invoke _ _ Hplug) as Hinv.
  destruct (invokes_object _ _ Hplug) as (fields & -> & Hty & Hname).
  rewrite (onMessage_parsed _ _ _ _ Hparse), handleMessage_invoke by done.
  subst requested reply. simpl. split; [|split].
  - intros Hmissing. rewrite handleInvoke_plugin_missing; [done|done|].
    destruct Hmissing as [->| ->]; [done|]. by rewrite orb_true_r.
  - intros s Hs Hne. rewrite handleInvoke_plugin_lookup; [|done|].
    2:{ rewrite Hs. simpl. by apply String.eqb_neq. }
    rewrite Hs, find_plugin_string.
    destruct (lookup_handler (customHandlers w) s) as [p|]; [|done].
    destruct (callback p (get_field fields "data")) as [[]|err] eqn:Hcall.
    + split; [by eexists _, _, _|]. split; [done|]. by intros e [=].
    + unfold caught. split; [|split; [done|]].
      * destruct (reason_too_long (message err)); eexists _, _, _; done.
      * intros e [= <-] ->. reflexivity.
  - intros Hnull Hstr. rewrite handleInvoke_plugin_lookup; [|done|].
    2:{ rewrite Hnull. simpl.
        destruct (get_field fields "pluginName"); try done. by destruct (Hstr s). }
    destruct (customHandlers w) as [|p rest]; [done|].
    by rewrite find_plugin_not_string.
Qed.

End Protocol.

(** ** Broadcast *)

Section Broadcast.
Context `{Runtime}.

Lemma each_effects sendErr dataRaw w client :
  each sendErr dataRaw client w =
    (Normal tt, w, if eligible w client then delivery sendErr dataRaw client else []).
Proof.
  unfold each, eligible, delivery.
  destruct (sockets w !! client) as [c|] eqn:Hc; mrun; [|reflexivity].
  destruct (Z.eqb (readyState c) 1); simpl; [|reflexivity].
  destruct (bool_decide (type c = Some "events")); simpl; [|reflexivity].
  destruct (sendErr client); reflexivity.
Qed.

Lemma forEach_each sendErr dataRaw w clients :
  forEach clients (each sendErr dataRaw) w =
    (Normal tt, w,
     flat_map (delivery sendErr dataRaw) (List.filter (eligible w) clients)).
Proof.
  induction clients as [|client rest IH]; [reflexivity|].
  simpl. unfold bind. rewrite each_effects, IH.
  destruct (eligible w client); simpl; by rewrite ?app_nil_r.
Qed.

Lemma triggerEvent_effects sendErr eventType payload w :
  triggerEvent sendErr eventType payload w =
    (Normal tt, w,
     match server w with
     | None => []
     | Some clients =>
         flat_map (delivery sendErr (JSON_stringify (EventMessage eventType payload)))
                  (List.filter (eligible w) clients)
     end).
Proof.
  unfold triggerEvent, bind, get. simpl.
  destruct (server w) as [clients|]; [|reflexivity].
  by rewrite forEach_each.
Qed.

Lemma sent_deliveries sendErr dataRaw clients :
  sent (flat_map (delivery sendErr dataRaw) clients)
  = List.map (fun c => (c, dataRaw)) clients.
Proof.
  induction clients as [|c rest IH]; [reflexivity|].
  simpl. unfold sent in *. simpl. rewrite omap_app, IH.
  by destruct (sendErr c).
Qed.

Lemma closed_deliveries sendErr dataRaw clients :
  closed (flat_map (delivery sendErr dataRaw) clients) = [].
Proof.
  induction clients as [|c rest IH]; [reflexivity|].
  simpl. unfold closed in *. simpl. rewrite omap_app, IH.
  by destruct (sendErr c).
Qed.

Lemma cleared_deliveries sendErr dataRaw clients :
  cleared (flat_map (delivery sendErr dataRaw) clients) = [].
Proof.
  induction clients as [|c rest IH]; [reflexivity|].
  simpl. unfold cleared in *. simpl. rewrite omap_app, IH.
  by destruct (sendErr c).
Qed.

(** C7: [triggerEvent] does nothing while [this.server] is unset;
    otherwise it completes normally, leaves the world as it is, and the
    frames it sends are one and the same text, the serialization of the
    object with [type] ["event"], [name] the event type and [data] the
    payload, once to each tracked client that is open and has role
    [events], in the order of [server.clients], and to no other socket.
    The other clients are passed over in silence: nothing is closed, and
    every effect is the send to a recipient or the log line of a send
    the transport failed. *)
Theorem broadcast_recipients sendErr eventType payload w :
  match server w with
  | None => triggerEvent sendErr eventType payload w = (Normal tt, w, [])
  | Some clients =>
      let dataRaw :=
        JSON_stringify (JObject [("type", JString "event");
                                 ("name", JString eventType);
                                 ("data", payload)]) in
      let recipients := List.filter (eligible w) clients in
      exists effs,
        triggerEvent sendErr eventType payload w = (Normal tt, w, effs)
        /\ sent effs = List.map (fun c => (c, dataRaw)) recipients
        /\ closed effs = []
        /\ forall e, In e effs ->
             exists c, In c recipients
                       /\ (e = WsSend c dataRaw
                           \/ exists err, sendErr c = Some err
                                          /\ e = LogError (message err))
  end.
Proof.
  rewrite triggerEvent_effects.
  destruct (server w) as [clients|]; [|reflexivity].
  simpl. eexists. split; [reflexivity|].
  rewrite sent_deliveries, closed_deliveries. split; [done|]. split; [done|].
  intros e (c & Hin & He)%in_flat_map. exists c. split; [done|].
  unfold delivery in He. destruct He as [<-|He]; [by left|].
  destruct (sendErr c) as [err|]; [|done].
  destruct He as [<-|[]]. right. by exists err.
Qed.

(** C8: whatever errors the transport reports for the sends of a
    broadcast, the frames sent are the same ones, to every eligible
    recipient; each reported error is logged with [logger.error] and
    nothing else happens: the call completes normally, the world is
    unchanged, no socket is closed and no frame other than the event
    frame is sent. *)
Theorem broadcast_send_errors sendErr eventType payload w clients :
  server w = Some clients ->
  let dataRaw := JSON_stringify (EventMessage eventType payload) in
  exists effs,
    triggerEvent sendErr eventType payload w = (Normal tt, w, effs)
    /\ sent effs = sent (snd (triggerEvent (fun _ => None) eventType payload w))
    /\ sent effs = List.map (fun c => (c, dataRaw)) (List.filter (eligible w) clients)
    /\ closed effs = []
    /\ (forall c err, In c (List.filter (eligible w) clients) -> sendErr c = Some err ->
        In (LogError (message err)) effs)
    /\ (forall e, In e effs ->
        (exists c, e = WsSend c dataRaw /\ In c (List.filter (eligible w) clients))
        \/ (exists c err, e = LogError (message err) /\ sendErr c = Some err
                          /\ In c (List.filter (eligible w) clients))).
Proof.
  intros Hserver dataRaw. rewrite !triggerEvent_effects, Hserver. simpl.
  eexists. split; [reflexivity|].
  rewrite !sent_deliveries, closed_deliveries.
  split; [done|]. split; [done|]. split; [done|]. split.
  - intros c err Hin Herr. apply in_flat_map. exists c. split; [done|].
    unfold delivery. rewrite Herr. right. by left.
  - intros e (c & Hin & He)%in_flat_map. unfold delivery in He.
    destruct He as [<-|He]; [left; eauto|].
    destruct (sendErr c) as [err|] eqn:Herr; [|done].
    destruct He as [<-|[]]. right. eauto.
Qed.

End Broadcast.

(** ** The event loop, step by step *)

Section Steps.
Context `{Runtime}.

Lemma onMessage_cases w ws c data :
  sockets w !! ws = Some c ->
  exists r w' effs,
    onMessage ws data w = (r, w', effs)
    /\ (r = Normal tt \/ r = Throw close_reason_error)
    /\ ((w' = w /\ cleared effs = [] /\ closed effs = [])
        \/ (exists e, r = Normal tt /\ w' = closing ws w /\ cleared effs = []
                      /\ closed effs = [(ws, 4006, message e)])
        \/ (r = Normal tt /\ w' = subscribing ws w /\ type c = None
            /\ cleared effs = [registrationTimeout c] /\ closed effs = []
            /\ exists v, JSON_parse data = Normal v
                         /\ invokes "subscribe-events" v = true)).
Proof.
  intros Hws.
  assert (forall e before, cleared before = [] -> closed before = [] ->
            exists r w' effs,
              caught ws e w before = (r, w', effs)
              /\ (r = Normal tt \/ r = Throw close_reason_error)
              /\ ((w' = w /\ cleared effs = [] /\ closed effs = [])
                  \/ (exists e, r = Normal tt /\ w' = closing ws w
                                /\ cleared effs = []
                                /\ closed effs = [(ws, 4006, message e)])
                  \/ (r = Normal tt /\ w' = subscribing ws w /\ type c = None
                      /\ cleared effs = [registrationTimeout c] /\ closed effs = []
                      /\ exists v, JSON_parse data = Normal v
                                   /\ invokes "subscribe-events" v = true)))
    as Hcaught.
  { intros e before Hcleared Hclosed. unfold caught.
    destruct (reason_too_long (message e)).
    - eexists _, _, _. split; [reflexivity|]. split; [by right|]. by left.
    - eexists _, _, _. split; [reflexivity|]. split; [by left|]. right. left.
      exists e. unfold cleared, closed in *.
      rewrite !omap_app, Hcleared, Hclosed. done. }
  destruct (JSON_parse data) as [v|e] eqn:Hparse.
  - rewrite (onMessage_parsed _ _ _ _ Hparse).
    destruct (handleMessage_handled w ws c v Hws) as (r & w1 & e1 & -> & Hcase).
    inversion Hcase; subst;
      try (eexists _, _, _; split; [reflexivity|]; split; [by left|]; by auto).
    + by apply Hcaught.
    + by apply Hcaught.
    + destruct (callback p (field v "data")) as [[]|e].
      * eexists _, _, _. split; [reflexivity|]. split; [by left|]. by left.
      * by apply Hcaught.
    + eexists _, _, _. split; [reflexivity|]. split; [by left|].
      right. right. eauto 10.
  - rewrite (onMessage_parse_error _ _ _ _ Hparse). by apply Hcaught.
Qed.

Lemma step_connection w addr clients :
  server w = Some clients ->
  step w (EvConnection addr) =
    Some (Normal tt,
          mkWorld (now w)
                  (sockets w ++ [mkClient addr None (Some (timerSeq w)) OPEN])
                  (Some (clients ++ [length (sockets w)]))
                  (customHandlers w)
                  (<[timerSeq w := mkTimer (now w + 5000) (length (sockets w))]> (timers w))
                  (S (timerSeq w)),
          [SetTimeout (timerSeq w) 5000]).
Proof.
  intros Hserver. unfold step. rewrite Hserver.
  unfold accept, onConnection, setTimeout. unfold_m. simpl. rewrite Hserver. simpl.
  rewrite lookup_app_r, Nat.sub_diag by done. simpl.
  rewrite insert_app_r_alt, Nat.sub_diag by done. reflexivity.
Qed.

Lemma step_timeout w h t :
  timers w !! h = Some t -> due t <= now w ->
  step w (EvTimeout h) =
    Some (Normal tt,
          closing (target t) (set_timers w (delete h (timers w)) (timerSeq w)),
          [timed_out w (target t); WsClose (target t) 4000 "Registration timed out"]).
Proof.
  intros Ht Hdue. unfold step. rewrite Ht.
  rewrite (proj2 (Z.leb_le _ _) Hdue).
  unfold fireTimeout, registrationTimedOut, closing, timed_out. unfold_m. simpl.
  destruct (sockets w !! target t); reflexivity.
Qed.

Lemma step_close w ws c :
  sockets w !! ws = Some c -> readyState c <> CLOSED ->
  step w (EvClose ws) =
    Some (Normal tt,
          mkWorld (now w) (<[ws := set_readyState CLOSED c]> (sockets w))
                  (option_map (filter (fun x => x <> ws)) (server w))
                  (customHandlers w) (timers w) (timerSeq w),
          []).
Proof.
  intros Hws Hopen. unfold step. rewrite Hws.
  rewrite (proj2 (Z.eqb_neq _ _) Hopen).
  unfold transportClosed. unfold_m. simpl. rewrite Hws. reflexivity.
Qed.

End Steps.

Section StepRelation.
Context `{Runtime}.

Lemma step_stepped w ev r w' effs :
  step w ev = Some (r, w', effs) ->
  (r = Normal tt
   \/ (r = Throw close_reason_error /\ exists ws data, ev = EvMessage ws data))
  /\ stepped w ev w' effs.
Proof.
  destruct ev as [|addr|ws data|h|ws|ms|sendErr eventType payload|name cb|name];
    simpl.
  - intros [= <- <- <-]. split; [by left|constructor].
  - destruct (server w) as [clients|] eqn:Hserver; [|done].
    pose proof (step_connection w addr clients Hserver) as Hstep.
    unfold step in Hstep. rewrite Hserver in Hstep. rewrite Hstep.
    intros [= <- <- <-]. split; [by left|by constructor].
  - destruct (sockets w !! ws) as [c|] eqn:Hws; [|done].
    destruct (_ || _); [|done].
    destruct (onMessage_cases w ws c data Hws) as (r1 & w1 & e1 & -> & Hr & Hcase).
    intros [= <- <- <-]. split; [destruct Hr as [->| ->]; eauto|].
    destruct Hcase
      as [(-> & ? & ?)|[(e & _ & -> & ? & ?)|(_ & -> & ? & ? & ? & v & ? & ?)]].
    + by eapply stepped_message.
    + by eapply stepped_message_fatal.
    + by eapply stepped_message_subscribe.
  - destruct (timers w !! h) as [t|] eqn:Ht; [|done].
    destruct (Z.leb_spec (due t) (now w)) as [Hdue|]; [|done].
    pose proof (step_timeout w h t Ht Hdue) as Hstep.
    unfold step in Hstep. rewrite Ht, (proj2 (Z.leb_le _ _) Hdue) in Hstep.
    rewrite Hstep. intros [= <- <- <-]. split; [by left|by constructor].
  - destruct (sockets w !! ws) as [c|] eqn:Hws; [|done].
    destruct (Z.eqb_spec (readyState c) CLOSED) as [|Hopen]; [done|].
    pose proof (step_close w ws c Hws Hopen) as Hstep.
    unfold step in Hstep. rewrite Hws, (proj2 (Z.eqb_neq _ _) Hopen) in Hstep.
    rewrite Hstep. intros [= <- <- <-]. split; [by left|by constructor].
  - destruct (Z.leb_spec 0 ms); [|done].
    intros [= <- <- <-]. split; [by left|by constructor].
  - rewrite triggerEvent_effects. intros [= <- <- <-]. split; [by left|].
    constructor; destruct (server w);
      by rewrite ?cleared_deliveries, ?closed_deliveries.
  - unfold ignore, registerCustomWebSocketListener. unfold_m. simpl.
    destruct (findIndex (customHandlers w) name) as [i|] eqn:Hfind; simpl;
      intros [= <- <- <-]; (split; [by left|]).
    + by eapply stepped_register_refused.
    + by eapply stepped_register.
  - unfold ignore, unregisterCustomWebSocketListener. unfold_m. simpl.
    destruct (findIndex (customHandlers w) name) as [i|] eqn:Hfind; simpl;
      intros [= <- <- <-]; (split; [by left|]).
    + by eapply stepped_unregister.
    + by eapply stepped_unregister_refused.
Qed.

End StepRelation.

(** ** Invariants of the event loop *)

Section Invariants.
Context `{Runtime}.

Lemma closing_socket ws w x c :
  sockets w !! x = Some c ->
  exists c', sockets (closing ws w) !! x = Some c'
             /\ remoteAddress c' = remoteAddress c
             /\ registrationTimeout c' = registrationTimeout c
             /\ type c' = type c.
Proof.
  intros Hx. destruct (decide (x = ws)) as [->|Hne].
  - rewrite (closing_same _ _ _ Hx). eexists. split; [done|].
    by destruct (Z.eqb _ _).
  - rewrite closing_other by done. eauto.
Qed.

Lemma stepped_socket w ev w' effs ws c :
  stepped w ev w' effs -> sockets w !! ws = Some c ->
  exists c', sockets w' !! ws = Some c' /\ evolves c c'.
Proof.
  unfold evolves. intros Hstep Hws. inversion Hstep; subst; simpl; eauto 8.
  - rewrite lookup_app_l by by eapply lookup_lt_Some. eauto 8.
  - destruct (closing_socket ws0 w ws c Hws) as (c' & ? & ? & ? & ?). eauto 8.
  - destruct (decide (ws = ws0)) as [->|Hne].
    + rewrite (subscribing_same _ _ _ Hws). eexists. split; [done|].
      simpl. simplify_eq. auto.
    + rewrite subscribing_other by done. eauto 8.
  - destruct (closing_socket (target t)
                (set_timers w (delete h (timers w)) (timerSeq w)) ws c Hws)
      as (c' & ? & ? & ? & ?). eauto 8.
  - destruct (decide (ws = ws0)) as [->|Hne].
    + rewrite (lookup_insert_same _ _ _ _ Hws). simplify_eq. eauto 8.
    + rewrite list_lookup_insert_ne by done. eauto 8.
Qed.

Lemma stepped_watchdogs w ev w' effs :
  stepped w ev w' effs -> watchdogs_consistent w -> watchdogs_consistent w'.
Proof.
  unfold watchdogs_consistent. intros Hstep Hinv.
  inversion Hstep; subst; simpl; try exact Hinv.
  - intros h t [[<- <-]|[Hne Ht]]%lookup_insert_Some.
    + split; [lia|]. simpl.
      exists (mkClient addr None (Some (timerSeq w)) OPEN). split; [|done].
      by rewrite lookup_app_r, Nat.sub_diag.
    + destruct (Hinv h t Ht) as (Hlt & c & Hc & ? & ?). split; [lia|].
      exists c. split; [|done].
      rewrite lookup_app_l by by eapply lookup_lt_Some. done.
  - destruct (closing_rest ws w) as (_ & _ & -> & -> & _).
    intros h t Ht. destruct (Hinv h t Ht) as (Hlt & c1 & Hc1 & ? & ?).
    split; [done|].
    destruct (closing_socket ws w _ _ Hc1) as (c' & ? & ? & ? & ?).
    exists c'. split; [done|]. split; congruence.
  - unfold subscribing.
    match goal with Hc : sockets w !! ws = Some c |- _ => rewrite Hc end. simpl.
    intros h t Ht.
    assert (timers w !! h = Some t /\ registrationTimeout c <> Some h) as [Ht' Hh].
    { destruct (registrationTimeout c) as [h0|]; [|done].
      apply lookup_delete_Some in Ht as [? ?]. split; [done|congruence]. }
    destruct (Hinv h t Ht') as (Hlt & c1 & Hc1 & ? & ?). split; [done|].
    destruct (decide (target t = ws)) as [Heq|Hne].
    + rewrite Heq in Hc1. simplify_eq.
    + exists c1. by rewrite list_lookup_insert_ne.
  - destruct (closing_rest (target t)
                (set_timers w (delete h (timers w)) (timerSeq w)))
      as (_ & _ & -> & -> & _). simpl.
    intros h' t' [Hne Ht']%lookup_delete_Some.
    destruct (Hinv h' t' Ht') as (Hlt & c1 & Hc1 & ? & ?). split; [done|].
    destruct (closing_socket (target t)
                (set_timers w (delete h (timers w)) (timerSeq w)) _ _ Hc1)
      as (c' & ? & ? & ? & ?).
    exists c'. split; [done|]. split; congruence.
  - intros h t Ht. destruct (Hinv h t Ht) as (Hlt & c1 & Hc1 & ? & ?).
    split; [done|]. destruct (decide (target t = ws)) as [Heq|Hne].
    + rewrite Heq in Hc1 |- *.
      rewrite (lookup_insert_same _ _ _ _ Hc1). simplify_eq. eauto.
    + rewrite list_lookup_insert_ne by done. eauto.
Qed.

Lemma reachable_watchdogs w : reachable w -> watchdogs_consistent w.
Proof.
  induction 1 as [|w ev r w' effs _ IH Hstep].
  - intros h t Ht. simpl in Ht. by rewrite lookup_empty in Ht.
  - apply step_stepped in Hstep as [_ Hstep]. by eapply stepped_watchdogs.
Qed.

End Invariants.

(** ** The extension registry *)

Section Registry.
Context `{Runtime}.

Lemma findIndex_lookup handlers name :
  findIndex handlers name = None <-> lookup_handler handlers name = None.
Proof.
  induction handlers as [|p rest IH]; simpl; [done|].
  unfold same_name. destruct (String.eqb _ _); [done|].
  destruct (findIndex rest name); simpl; [|tauto].
  split; [done|]. intros Hnone. by apply IH in Hnone.
Qed.

Lemma findIndex_fresh handlers name :
  findIndex handlers name = None ->
  toLowerCase name ∉ (fun p => toLowerCase (pluginName p)) <$> handlers.
Proof.
  induction handlers as [|p rest IH]; simpl; [intros _; apply not_elem_of_nil|].
  destruct (String.eqb_spec (toLowerCase (pluginName p)) (toLowerCase name))
    as [|Hne]; [done|].
  destruct (findIndex rest name) eqn:Hrest; [done|]. intros _.
  apply not_elem_of_cons. split; [congruence|by apply IH].
Qed.

Lemma splice1_elem handlers i x :
  x ∈ (fun p => toLowerCase (pluginName p)) <$> splice1 handlers i ->
  x ∈ (fun p => toLowerCase (pluginName p)) <$> handlers.
Proof.
  revert i. induction handlers as [|p rest IH]; intros [|i]; simpl; try done.
  - intros Hin. apply elem_of_cons. by right.
  - intros [->|Hin]%elem_of_cons; apply elem_of_cons; [by left|].
    right. by eapply IH.
Qed.

Lemma splice1_distinct handlers i :
  distinct_names handlers -> distinct_names (splice1 handlers i).
Proof.
  unfold distinct_names. revert i.
  induction handlers as [|p rest IH]; intros [|i]; simpl; try done.
  - by intros [_ ?]%NoDup_cons.
  - intros [Hnotin Hrest]%NoDup_cons. apply NoDup_cons. split; [|by apply IH].
    intros Hin. by apply Hnotin, (splice1_elem _ i).
Qed.

Lemma register_distinct handlers name cb :
  findIndex handlers name = None -> distinct_names handlers ->
  distinct_names (handlers ++ [mkHandler name cb]).
Proof.
  unfold distinct_names. intros Hfresh Hdistinct. rewrite fmap_app. simpl.
  apply NoDup_app. split; [done|]. split; [|apply NoDup_singleton].
  intros x Hin ->%list_elem_of_singleton. by apply (findIndex_fresh _ _ Hfresh).
Qed.

Lemma stepped_distinct w ev w' effs :
  stepped w ev w' effs ->
  distinct_names (customHandlers w) -> distinct_names (customHandlers w').
Proof.
  intros Hstep Hdistinct. inversion Hstep; subst; simpl; try done.
  - by destruct (closing_rest ws w) as (_ & -> & _).
  - unfold subscribing. by destruct (sockets w !! ws).
  - by destruct (closing_rest (target t)
                   (set_timers w (delete h (timers w)) (timerSeq w)))
      as (_ & -> & _).
  - by apply register_distinct.
  - by apply splice1_distinct.
Qed.

Lemma reachable_distinct w : reachable w -> distinct_names (customHandlers w).
Proof.
  induction 1 as [|w ev r w' effs _ IH Hstep].
  - constructor.
  - apply step_stepped in Hstep as [_ Hstep]. by eapply stepped_distinct.
Qed.

(** C9: [registerCustomWebSocketListener] returns [false], logging an
    error and leaving the manager as it is, when some entry has a name
    equal to the given one after lower-casing both; otherwise it appends
    the entry made of the given name and callback at the end of the
    table, changes nothing else, logs the registration and returns
    [true].  In every world the event loop can reach, and in the world
    the call leaves, no two entries have the same lower-cased name. *)
Theorem register_unique w name cb :
  reachable w ->
  (lookup_handler (customHandlers w) name <> None ->
   registerCustomWebSocketListener name cb w =
     (Normal false, w,
      [LogError ("Custom WebSocket listener " ++ dquote ++ name ++ dquote
                 ++ " already registered")%string]))
  /\ (lookup_handler (customHandlers w) name = None ->
      registerCustomWebSocketListener name cb w =
        (Normal true,
         mkWorld (now w) (sockets w) (server w)
                 (customHandlers w ++ [mkHandler name cb])
                 (timers w) (timerSeq w),
         [LogInfo ("Registered custom WebSocket listener for plugin "
                   ++ dquote ++ name ++ dquote)%string]))
  /\ distinct_names (customHandlers w)
  /\ distinct_names
       (customHandlers (snd (fst (registerCustomWebSocketListener name cb w)))).
Proof.
  intros Hreach. pose proof (reachable_distinct w Hreach) as Hdistinct.
  unfold registerCustomWebSocketListener. unfold_m. simpl.
  destruct (findIndex (customHandlers w) name) as [i|] eqn:Hfind; simpl.
  - split; [done|]. split; [|done].
    intros Hnone%findIndex_lookup. congruence.
  - split; [|split; [done|split; [done|by apply register_distinct]]].
    intros Hsome. by apply findIndex_lookup in Hfind.
Qed.

End Registry.

(** ** The connection lifecycle *)

Section Lifecycle.
Context `{Runtime}.

Lemma evolves_refl c : evolves c c.
Proof. unfold evolves. auto. Qed.

Lemma evolves_trans c1 c2 c3 : evolves c1 c2 -> evolves c2 c3 -> evolves c1 c3.
Proof.
  unfold evolves. intros (Ha & Ht & Hr) (Ha' & Ht' & Hr').
  split; [congruence|]. split; [congruence|].
  destruct Hr as [Hr|[Hr1 Hr2]], Hr' as [Hr'|[Hr1' Hr2']]; try (left; congruence);
    right; split; congruence.
Qed.

Lemma run_cons w ev rest w' effs :
  run w (ev :: rest) = Some (w', effs) ->
  exists r w1 e1 e2,
    step w ev = Some (r, w1, e1) /\ stepped w ev w1 e1
    /\ run w1 rest = Some (w', e2) /\ effs = e1 ++ e2.
Proof.
  simpl. destruct (step w ev) as [[[r w1] e1]|] eqn:Hstep; [|done].
  destruct (run w1 rest) as [[w2 e2]|] eqn:Hrun; [|done].
  intros [= <- <-]. destruct (step_stepped _ _ _ _ _ Hstep) as [_ Hstepped].
  eauto 10.
Qed.

Lemma run_socket evs w w' effs ws c :
  run w evs = Some (w', effs) -> sockets w !! ws = Some c ->
  exists c', sockets w' !! ws = Some c' /\ evolves c c'.
Proof.
  revert w effs c. induction evs as [|ev rest IH]; intros w effs c.
  - intros [= <- <-] Hws. eauto using evolves_refl.
  - intros (r1 & w1 & e1 & e2 & _ & Hstep & Hrun & _)%run_cons Hws.
    destruct (stepped_socket _ _ _ _ _ _ Hstep Hws) as (c1 & Hc1 & Hev1).
    destruct (IH _ _ _ Hrun Hc1) as (c' & Hc' & Hev').
    eauto using evolves_trans.
Qed.

Lemma stepped_watchdog_close w ev w' effs ws reason :
  stepped w ev w' effs -> watchdogs_consistent w ->
  In (ws, 4000, reason) (closed effs) ->
  exists c, sockets w !! ws = Some c /\ type c = None.
Proof.
  intros Hstep Hinv Hin.
  inversion Hstep; subst; simpl in Hin;
    repeat match goal with
           | Heq : closed _ = _ |- _ => rewrite Heq in Hin
           end; simpl in Hin; try done.
  - by destruct Hin as [[=]|[]].
  - destruct Hin as [[= <- <-]|[]].
    destruct (Hinv _ _ ltac:(eassumption)) as (_ & c & ? & ? & ?). eauto.
Qed.

Lemma closed_app e1 e2 : closed (e1 ++ e2) = closed e1 ++ closed e2.
Proof. apply omap_app. Qed.

Lemma run_no_watchdog_close evs w w' effs ws c reason :
  run w evs = Some (w', effs) -> watchdogs_consistent w ->
  sockets w !! ws = Some c -> type c = Some "events" ->
  ~ In (ws, 4000, reason) (closed effs).
Proof.
  revert w effs c. induction evs as [|ev rest IH]; intros w effs c.
  - intros [= <- <-] _ _ _ [].
  - intros (r1 & w1 & e1 & e2 & _ & Hstep & Hrun & ->)%run_cons Hinv Hws Hty.
    rewrite closed_app, in_app_iff. intros [Hin|Hin].
    + destruct (stepped_watchdog_close _ _ _ _ _ _ Hstep Hinv Hin) as (c0 & ? & ?).
      congruence.
    + destruct (stepped_socket _ _ _ _ _ _ Hstep Hws) as (c1 & Hc1 & _ & _ & Hrole).
      eapply (IH _ _ c1 Hrun); eauto using stepped_watchdogs.
      destruct Hrole as [?|[? ?]]; congruence.
Qed.

End Lifecycle.

Section LifecycleClaims.
Context `{Runtime}.

Lemma onMessage_subscribe_again w ws c data v :
  sockets w !! ws = Some c -> type c <> None ->
  JSON_parse data = Normal v -> invokes "subscribe-events" v = true ->
  onMessage ws data w = (Normal tt, w, [incoming w ws data; already_subscribed ws v]).
Proof.
  intros Hws Hty Hparse Hsub.
  pose proof (invokes_is_invoke _ _ Hsub) as Hinv.
  destruct (invokes_object _ _ Hsub) as (fields & -> & _ & Hname).
  rewrite (onMessage_parsed _ _ _ _ Hparse), handleMessage_invoke by done.
  by rewrite (handleInvoke_subscribe_again w ws c).
Qed.

Lemma onMessage_subscribe_fresh w ws c data v :
  sockets w !! ws = Some c -> type c = None ->
  JSON_parse data = Normal v -> invokes "subscribe-events" v = true ->
  onMessage ws data w =
    (Normal tt, subscribing ws w,
     [incoming w ws data;
      ClearTimeout (registrationTimeout c);
      LogInfo ("Websocket Event Connection from " ++ remoteAddress c)%string;
      WsSend ws (JSON_stringify (ResponseMessage (field v "id") "success" JNull))]).
Proof.
  intros Hws Hty Hparse Hsub.
  pose proof (invokes_is_invoke _ _ Hsub) as Hinv.
  destruct (invokes_object _ _ Hsub) as (fields & -> & _ & Hname).
  rewrite (onMessage_parsed _ _ _ _ Hparse), handleMessage_invoke by done.
  by rewrite (handleInvoke_subscribe_fresh w ws c).
Qed.

Lemma subscribing_cancels ws w c h :
  sockets w !! ws = Some c -> registrationTimeout c = Some h ->
  timers (subscribing ws w) !! h = None.
Proof.
  intros Hws Hh. unfold subscribing. rewrite Hws, Hh. simpl.
  apply lookup_delete_eq.
Qed.

(** C2: the role of a socket changes at most once, and only from unset
    to [events]: over any step, and over any run, it is as before or has
    gone from unset to [events].  A [subscribe-events] invoke on a socket
    whose role is unset calls [clearTimeout] on its registration
    timeout, which is then no longer pending, sets the role to [events]
    and sends the success response; on a socket whose role is set it
    sends the error response "socket already subscribed" and changes
    nothing -- and that is what every later [subscribe-events] on the
    socket gets. *)
Theorem role_transitions w ws c data v :
  sockets w !! ws = Some c ->
  JSON_parse data = Normal v -> invokes "subscribe-events" v = true ->
  (forall evs w' effs, run w evs = Some (w', effs) ->
     exists c', sockets w' !! ws = Some c'
                /\ (type c' = type c \/ (type c = None /\ type c' = Some "events")))
  /\ (type c = None ->
      onMessage ws data w =
        (Normal tt, subscribing ws w,
         [incoming w ws data;
          ClearTimeout (registrationTimeout c);
          LogInfo ("Websocket Event Connection from " ++ remoteAddress c)%string;
          WsSend ws (JSON_stringify
                       (JObject [("type", JString "response"); ("id", field v "id");
                                 ("name", JString "success"); ("data", JNull)]))])
      /\ sockets (subscribing ws w) !! ws = Some (set_type (Some "events") c)
      /\ (forall h, registrationTimeout c = Some h ->
            timers (subscribing ws w) !! h = None)
      /\ forall evs w1 effs data' v',
           run (subscribing ws w) evs = Some (w1, effs) ->
           JSON_parse data' = Normal v' -> invokes "subscribe-events" v' = true ->
           onMessage ws data' w1 =
             (Normal tt, w1,
              [incoming w1 ws data';
               WsSend ws (JSON_stringify
                            (JObject [("type", JString "response");
                                      ("id", field v' "id");
                                      ("name", JString "error");
                                      ("data", JString "socket already subscribed")]))]))
  /\ (type c <> None ->
      onMessage ws data w =
        (Normal tt, w,
         [incoming w ws data;
          WsSend ws (JSON_stringify
                       (JObject [("type", JString "response"); ("id", field v "id");
                                 ("name", JString "error");
                                 ("data", JString "socket already subscribed")]))])).
Proof.
  intros Hws Hparse Hsub. split; [|split].
  - intros evs w' effs Hrun.
    destruct (run_socket _ _ _ _ _ _ Hrun Hws) as (c' & Hc' & _ & _ & Hrole).
    eauto.
  - intros Hty. split; [by apply onMessage_subscribe_fresh|].
    split; [by apply subscribing_same|].
    split; [intros h; by apply subscribing_cancels|].
    intros evs w1 effs data' v' Hrun Hparse' Hsub'.
    destruct (run_socket _ _ _ _ _ _ Hrun (subscribing_same _ _ _ Hws))
      as (c1 & Hc1 & _ & _ & Hrole).
    apply (onMessage_subscribe_again w1 ws c1); try done.
    simpl in Hrole. destruct Hrole as [->|[? ?]]; done.
  - intros Hty. by apply (onMessage_subscribe_again w ws c).
Qed.

(** C3: in every reachable world, accepting a connection schedules its
    watchdog: a timeout due 5000 ms after the accept, whose handle the
    new socket keeps.  A pending watchdog cannot fire before it is due;
    when it fires it is dropped (one-shot), its socket still has no
    role, and [ws.close(4000, "Registration timed out")] is called on
    it.  A socket whose role is [events] has no pending watchdog and is
    never closed with code 4000 in any continuation; in particular a
    socket that subscribes is not closed with code 4000 whatever follows. *)
Theorem registration_watchdog w :
  reachable w ->
  (forall addr clients, server w = Some clients ->
     exists w',
       step w (EvConnection addr) = Some (Normal tt, w', [SetTimeout (timerSeq w) 5000])
       /\ sockets w' !! length (sockets w)
          = Some (mkClient addr None (Some (timerSeq w)) OPEN)
       /\ timers w' !! timerSeq w
          = Some (mkTimer (now w + 5000) (length (sockets w)))
       /\ timers w !! timerSeq w = None)
  /\ (forall h t, timers w !! h = Some t ->
        (now w < due t -> step w (EvTimeout h) = None)
        /\ (due t <= now w ->
            exists w' c,
              step w (EvTimeout h) =
                Some (Normal tt, w',
                      [timed_out w (target t);
                       WsClose (target t) 4000 "Registration timed out"])
              /\ timers w' !! h = None
              /\ sockets w !! target t = Some c /\ type c = None))
  /\ (forall ws c, sockets w !! ws = Some c -> type c = Some "events" ->
        (forall h t, timers w !! h = Some t -> target t <> ws)
        /\ forall evs w' effs reason,
             run w evs = Some (w', effs) -> ~ In (ws, 4000, reason) (closed effs))
  /\ (forall ws c data v evs w' effs reason,
        sockets w !! ws = Some c -> type c = None ->
        JSON_parse data = Normal v -> invokes "subscribe-events" v = true ->
        run w (EvMessage ws data :: evs) = Some (w', effs) ->
        ~ In (ws, 4000, reason) (closed effs)).
Proof.
  intros Hreach. pose proof (reachable_watchdogs w Hreach) as Hinv.
  split; [|split; [|split]].
  - intros addr clients Hserver. rewrite (step_connection _ _ _ Hserver).
    eexists. split; [reflexivity|]. simpl.
    split; [by rewrite lookup_app_r, Nat.sub_diag|].
    split; [apply lookup_insert_eq|].
    destruct (timers w !! timerSeq w) as [t|] eqn:Ht; [|done].
    destruct (Hinv _ _ Ht) as [Hlt _]. lia.
  - intros h t Ht. split.
    + intros Hearly. unfold step. rewrite Ht.
      by rewrite (proj2 (Z.leb_gt _ _) Hearly).
    + intros Hdue. rewrite (step_timeout _ _ _ Ht Hdue).
      destruct (Hinv _ _ Ht) as (_ & c & Hc & _ & Hty).
      eexists _, c. split; [reflexivity|]. split; [|done].
      destruct (closing_rest (target t)
                  (set_timers w (delete h (timers w)) (timerSeq w)))
        as (_ & _ & -> & _).
      apply lookup_delete_eq.
  - intros ws c Hws Hty. split.
    + intros h t Ht Htarget. destruct (Hinv _ _ Ht) as (_ & c0 & Hc0 & _ & Hnone).
      rewrite Htarget in Hc0. congruence.
    + intros evs w' effs reason Hrun. by eapply run_no_watchdog_close.
  - intros ws c data v evs w' effs reason Hws Hty Hparse Hsub.
    intros (r1 & w1 & e1 & e2 & Hstep & Hstepped & Hrun & ->)%run_cons.
    simpl in Hstep. rewrite Hws in Hstep. destruct (_ || _); [|done].
    rewrite (onMessage_subscribe_fresh w ws c data v) in Hstep by done.
    injection Hstep as <- <- <-.
    rewrite closed_app, in_app_iff. intros [Hin|Hin].
    + simpl in Hin. done.
    + eapply (run_no_watchdog_close evs (subscribing ws w)); eauto.
      * by eapply stepped_watchdogs.
      * by apply subscribing_same.
      * done.
Qed.

(** C4 (amended): the registration timeout is cancelled in exactly one
    situation, a [subscribe-events] invoke on a socket whose role is
    unset: a step calls [clearTimeout] only then, and then it does, on
    that socket's handle.  When the transport of a socket closes, no
    [clearTimeout] is called and the pending timeouts are as before. *)
Theorem timer_cancellation w ev r w' effs :
  step w ev = Some (r, w', effs) ->
  (cleared effs <> [] ->
   exists ws data v c,
     ev = EvMessage ws data /\ JSON_parse data = Normal v
     /\ invokes "subscribe-events" v = true
     /\ sockets w !! ws = Some c /\ type c = None
     /\ cleared effs = [registrationTimeout c])
  /\ (forall ws data v c,
        ev = EvMessage ws data -> JSON_parse data = Normal v ->
        invokes "subscribe-events" v = true ->
        sockets w !! ws = Some c -> type c = None ->
        cleared effs = [registrationTimeout c])
  /\ (forall ws, ev = EvClose ws -> cleared effs = [] /\ timers w' = timers w).
Proof.
  intros Hstep. split; [|split].
  - intros Hcleared. apply step_stepped in Hstep as [_ Hstep].
    inversion Hstep; subst; try done. eauto 10.
  - intros ws data v c -> Hparse Hsub Hws Hty. simpl in Hstep.
    rewrite Hws in Hstep. destruct (_ || _); [|done].
    rewrite (onMessage_subscribe_fresh w ws c data v) in Hstep by done.
    by injection Hstep as <- <- <-.
  - intros ws ->. apply step_stepped in Hstep as [_ Hstep].
    by inversion Hstep; subst.
Qed.

End LifecycleClaims.

(** ** The extension registry: unregistering, and how the calls compose *)

Section RegistryCalls.
Context `{Runtime}.

Lemma splice1_delete handlers i : splice1 handlers i = delete i handlers.
Proof.
  revert i. induction handlers as [|p rest IH]; intros [|i]; try reflexivity.
  simpl. f_equal. apply IH.
Qed.

Lemma findIndex_first handlers name i :
  findIndex handlers name = Some i ->
  exists p, handlers !! i = Some p
            /\ same_name (pluginName p) name = true
            /\ lookup_handler handlers name = Some p
            /\ forall j q, (j < i)%nat -> handlers !! j = Some q ->
                           same_name (pluginName q) name = false.
Proof.
  revert i. induction handlers as [|p rest IH]; intros i; simpl; [done|].
  unfold same_name at 2.
  destruct (String.eqb (toLowerCase (pluginName p)) (toLowerCase name)) eqn:Hp.
  - intros [= <-]. exists p. repeat split; try done. intros j q Hj. lia.
  - destruct (findIndex rest name) as [i'|] eqn:Hrest; [|done].
    intros [= <-]. destruct (IH i' eq_refl) as (q & Hq & Hmatch & Hlook & Hfirst).
    exists q. repeat split; try done.
    intros [|j] q' Hj; simpl; [by intros [= <-]|].
    apply Hfirst. lia.
Qed.

Lemma lookup_handler_index handlers name p :
  lookup_handler handlers name = Some p ->
  exists i, findIndex handlers name = Some i.
Proof.
  intros Hlook. destruct (findIndex handlers name) as [i|] eqn:Hfind; [eauto|].
  apply findIndex_lookup in Hfind. congruence.
Qed.

(** X1: [unregisterCustomWebSocketListener] returns [false], logs an
    error and leaves the manager alone when no entry has the given name
    up to case; otherwise it returns [true], logs the removal and takes
    one entry out of the table, the first whose name matches -- the same
    entry that a plugin invoke with that name would have called --
    keeping the other entries in their order and everything else in the
    manager as it was. *)
Theorem unregister_result w name :
  (lookup_handler (customHandlers w) name = None ->
   unregisterCustomWebSocketListener name w =
     (Normal false, w,
      [LogError ("Custom WebSocket listener " ++ dquote ++ name ++ dquote
                 ++ " is not registered")%string]))
  /\ (forall p, lookup_handler (customHandlers w) name = Some p ->
      exists i,
        customHandlers w !! i = Some p
        /\ (forall j q, (j < i)%nat -> customHandlers w !! j = Some q ->
                        same_name (pluginName q) name = false)
        /\ unregisterCustomWebSocketListener name w =
             (Normal true,
              mkWorld (now w) (sockets w) (server w)
                      (delete i (customHandlers w)) (timers w) (timerSeq w),
              [LogInfo ("Unregistered custom WebSocket listener for plugin "
                        ++ dquote ++ name ++ dquote)%string])).
Proof.
  unfold unregisterCustomWebSocketListener. unfold_m. simpl. split.
  - intros Hnone%findIndex_lookup. by rewrite Hnone.
  - intros p Hlook. destruct (lookup_handler_index _ _ _ Hlook) as [i Hfind].
    destruct (findIndex_first _ _ _ Hfind) as (q & Hq & _ & Hlook' & Hfirst).
    rewrite Hfind. simpl. exists i. rewrite splice1_delete.
    split; [congruence|]. split; [exact Hfirst|reflexivity].
Qed.

Lemma lookup_handler_none handlers s :
  toLowerCase s ∉ (fun p => toLowerCase (pluginName p)) <$> handlers ->
  lookup_handler handlers s = None.
Proof.
  intros Hfresh. destruct (lookup_handler handlers s) as [q|] eqn:Hlook; [|done].
  apply find_some in Hlook as [Hin Hmatch]. destruct Hfresh.
  unfold same_name in Hmatch. apply String.eqb_eq in Hmatch. rewrite <- Hmatch.
  apply list_elem_of_fmap. exists q. by rewrite list_elem_of_In.
Qed.

Lemma same_name_lower a b : same_name a b = true <-> toLowerCase a = toLowerCase b.
Proof. unfold same_name. apply String.eqb_eq. Qed.

Lemma lookup_handler_lower handlers s s' :
  toLowerCase s = toLowerCase s' ->
  lookup_handler handlers s = lookup_handler handlers s'.
Proof.
  intros Heq. unfold lookup_handler, same_name. by rewrite Heq.
Qed.

Lemma delete_forgets handlers name i :
  distinct_names handlers -> findIndex handlers name = Some i ->
  lookup_handler (delete i handlers) name = None.
Proof.
  unfold distinct_names. revert i.
  induction handlers as [|p rest IH]; intros i; simpl; [done|].
  intros [Hfresh Hrest]%NoDup_cons.
  destruct (String.eqb_spec (toLowerCase (pluginName p)) (toLowerCase name))
    as [Hp|Hp].
  - intros [= <-]. simpl. apply lookup_handler_none. by rewrite <- Hp.
  - destruct (findIndex rest name) as [i'|] eqn:Hfind; [|done].
    intros [= <-]. simpl. unfold same_name.
    rewrite (proj2 (String.eqb_neq _ _) Hp). by apply IH.
Qed.

Lemma lookup_handler_app handlers extra name :
  lookup_handler (handlers ++ extra) name =
    match lookup_handler handlers name with
    | Some p => Some p
    | None => lookup_handler extra name
    end.
Proof.
  unfold lookup_handler. induction handlers as [|p rest IH]; simpl; [done|].
  by destruct (same_name (pluginName p) name).
Qed.

Lemma lookup_handler_delete_other handlers name other i :
  same_name name other = false -> findIndex handlers name = Some i ->
  lookup_handler (delete i handlers) other = lookup_handler handlers other.
Proof.
  intros Hother. revert i.
  induction handlers as [|p rest IH]; intros i; simpl; [done|].
  destruct (String.eqb_spec (toLowerCase (pluginName p)) (toLowerCase name))
    as [Hp|Hp].
  - intros [= <-]. simpl. unfold same_name in *. by rewrite Hp, Hother.
  - destruct (findIndex rest name) as [i'|] eqn:Hfind; [|done].
    intros [= <-]. simpl. destruct (same_name (pluginName p) other); [done|].
    by apply IH.
Qed.

Lemma findIndex_app_fresh handlers name name' cb :
  findIndex handlers name = None -> toLowerCase name' = toLowerCase name ->
  findIndex (handlers ++ [mkHandler name cb]) name' = Some (length handlers).
Proof.
  intros Hfresh Heq. induction handlers as [|p rest IH]; simpl in *.
  - rewrite Heq. by rewrite String.eqb_refl.
  - rewrite Heq.
    destruct (String.eqb (toLowerCase (pluginName p)) (toLowerCase name)); [done|].
    destruct (findIndex rest name); [done|]. by rewrite IH.
Qed.

(** What handling a plugin invoke with a non-empty string name does. *)
Lemma handleMessage_plugin_string w ws v s :
  invokes "plugin" v = true -> field v "pluginName" = JString s -> s <> EmptyString ->
  handleMessage ws v w =
    match lookup_handler (customHandlers w) s with
    | Some p =>
        (callback p (field v "data"), w,
         [CallbackCall (pluginName p) (field v "data")])
    | None =>
        (Normal tt, w,
         [WsSend ws (JSON_stringify (ResponseMessage (field v "id") "error"
                                       (JString "Unknown plugin name specified")))])
    end.
Proof.
  intros Hplug Hs Hne. pose proof (invokes_is_invoke _ _ Hplug) as Hinv.
  destruct (invokes_object _ _ Hplug) as (fields & -> & _ & Hname).
  simpl in Hs. rewrite handleMessage_invoke by done.
  rewrite handleInvoke_plugin_lookup; [|done|].
  2:{ rewrite Hs. simpl. by apply String.eqb_neq. }
  by rewrite Hs, find_plugin_string.
Qed.

(** X2: in every reachable world, once a name has been unregistered no
    entry answers to it, whatever the case it is spelled in: a plugin
    invoke with that name calls nothing and gets one frame back, the
    response with the invoke's [id], name ["error"] and data "Unknown
    plugin name specified". *)
Theorem unregister_forgets w name ws data v s :
  reachable w ->
  JSON_parse data = Normal v -> invokes "plugin" v = true ->
  field v "pluginName" = JString s -> s <> EmptyString ->
  toLowerCase s = toLowerCase name ->
  let w' := snd (fst (unregisterCustomWebSocketListener name w)) in
  lookup_handler (customHandlers w') s = None
  /\ onMessage ws data w' =
       (Normal tt, w',
        [incoming w' ws data;
         WsSend ws (JSON_stringify
                      (JObject [("type", JString "response"); ("id", field v "id");
                                ("name", JString "error");
                                ("data", JString "Unknown plugin name specified")]))]).
Proof.
  intros Hreach Hparse Hplug Hs Hne Hlower w'.
  assert (lookup_handler (customHandlers w') s = None) as Hnone.
  { rewrite (lookup_handler_lower _ _ _ Hlower). subst w'.
    unfold unregisterCustomWebSocketListener. unfold_m. simpl.
    destruct (findIndex (customHandlers w) name) as [i|] eqn:Hfind; simpl.
    - rewrite splice1_delete. apply delete_forgets; [|done].
      by apply reachable_distinct.
    - by apply findIndex_lookup. }
  split; [done|].
  rewrite (onMessage_parsed _ _ _ _ Hparse).
  by rewrite (handleMessage_plugin_string _ _ _ s), Hnone.
Qed.

(** X3: after a registration that succeeded, a plugin invoke whose
    [pluginName] equals the registered name up to case runs the
    registered callback, once, on the frame's [data], and sends
    nothing. *)
Theorem register_then_invoke w name cb ws v s :
  lookup_handler (customHandlers w) name = None ->
  invokes "plugin" v = true ->
  field v "pluginName" = JString s -> s <> EmptyString ->
  toLowerCase s = toLowerCase name ->
  let w' := snd (fst (registerCustomWebSocketListener name cb w)) in
  fst (fst (registerCustomWebSocketListener name cb w)) = Normal true
  /\ handleMessage ws v w' =
       (cb (field v "data"), w', [CallbackCall name (field v "data")]).
Proof.
  intros Hfresh Hplug Hs Hne Hlower w'. subst w'.
  apply findIndex_lookup in Hfresh as Hfind.
  unfold registerCustomWebSocketListener. unfold_m. simpl. rewrite Hfind. simpl.
  split; [done|].
  rewrite (handleMessage_plugin_string _ _ _ s) by done. simpl.
  rewrite lookup_handler_app, (lookup_handler_lower _ _ _ Hlower), Hfresh. simpl.
  unfold same_name. simpl. by rewrite Hlower, String.eqb_refl.
Qed.

(** X4: registering a fresh name and then unregistering it, in any
    spelling that differs only in case, is accepted and gives back the
    world as it was before the registration. *)
Theorem register_unregister w name name' cb :
  lookup_handler (customHandlers w) name = None ->
  toLowerCase name' = toLowerCase name ->
  let w1 := snd (fst (registerCustomWebSocketListener name cb w)) in
  fst (fst (unregisterCustomWebSocketListener name' w1)) = Normal true
  /\ snd (fst (unregisterCustomWebSocketListener name' w1)) = w.
Proof.
  intros Hfresh Hlower w1. subst w1.
  apply findIndex_lookup in Hfresh as Hfind.
  unfold registerCustomWebSocketListener, unregisterCustomWebSocketListener.
  unfold_m. simpl. rewrite Hfind. simpl.
  rewrite (findIndex_app_fresh _ _ _ _ Hfind Hlower). simpl.
  split; [done|]. rewrite splice1_delete, delete_middle, app_nil_r.
  by destruct w.
Qed.

(** X5: registering or unregistering a name never changes which entry
    answers to a name that differs from it after lower-casing. *)
Theorem registry_calls_local w name cb other :
  same_name name other = false ->
  lookup_handler
    (customHandlers (snd (fst (registerCustomWebSocketListener name cb w)))) other
  = lookup_handler (customHandlers w) other
  /\ lookup_handler
       (customHandlers (snd (fst (unregisterCustomWebSocketListener name w)))) other
     = lookup_handler (customHandlers w) other.
Proof.
  intros Hother.
  unfold registerCustomWebSocketListener, unregisterCustomWebSocketListener.
  unfold_m. simpl.
  destruct (findIndex (customHandlers w) name) as [i|] eqn:Hfind; simpl.
  - split; [done|]. rewrite splice1_delete.
    by apply (lookup_handler_delete_other _ name).
  - split; [|done]. rewrite lookup_handler_app. simpl. rewrite Hother.
    by destruct (lookup_handler (customHandlers w) other).
Qed.

End RegistryCalls.

(** ** The message listener: locality and robustness *)

Section ListenerFacts.
Context `{Runtime}.

Lemma subscribing_rest ws w :
  server (subscribing ws w) = server w
  /\ customHandlers (subscribing ws w) = customHandlers w
  /\ now (subscribing ws w) = now w
  /\ timerSeq (subscribing ws w) = timerSeq w.
Proof. unfold subscribing. by destruct (sockets w !! ws). Qed.

Lemma subscribing_timers ws w c h :
  sockets w !! ws = Some c -> registrationTimeout c <> Some h ->
  timers (subscribing ws w) !! h = timers w !! h.
Proof.
  intros Hws Hh. unfold subscribing. rewrite Hws. simpl.
  destruct (registrationTimeout c) as [h0|]; [|done].
  apply lookup_delete_ne. congruence.
Qed.

Lemma handled_effects w ws c v r w1 e1 :
  handled w ws c v r w1 e1 ->
  (forall x p, In (x, p) (sent e1) -> x = ws)
  /\ (length (sent e1) <= 1)%nat
  /\ closed e1 = []
  /\ (w1 = w \/ w1 = subscribing ws w)
  /\ (forall e, r = Throw e -> w1 = w /\ sent e1 = []).
Proof.
  intros Hcase. inversion Hcase; subst; simpl;
    (split; [intros x q Hin; simpl in Hin; try done;
             by destruct Hin as [[= <- _]|[]]|]);
    (split; [lia|]); (split; [done|]); (split; [auto|]); try done.
Qed.

Lemma sent_app e1 e2 : sent (e1 ++ e2) = sent e1 ++ sent e2.
Proof. apply omap_app. Qed.



(** X8: an invoke whose [name] is neither ["subscribe-events"] nor
    ["plugin"] -- another string, another kind of value, or no name at
    all -- gets one frame back, the response with the invoke's [id],
    name ["error"] and data "unknown command invocation"; nothing else
    happens. *)
Theorem unknown_command w ws data v :
  JSON_parse data = Normal v -> is_invoke v = true ->
  strict_eq_string (field v "name") "subscribe-events" = false ->
  strict_eq_string (field v "name") "plugin" = false ->
  onMessage ws data w =
    (Normal tt, w,
     [incoming w ws data;
      WsSend ws (JSON_stringify
                   (JObject [("type", JString "response"); ("id", field v "id");
                             ("name", JString "error");
                             ("data", JString "unknown command invocation")]))]).
Proof.
  intros Hparse Hinv Hsub Hplug.
  rewrite (onMessage_parsed _ _ _ _ Hparse), handleMessage_invoke by done.
  destruct v; try discriminate. simpl in *.
  by rewrite handleInvoke_other.
Qed.

End ListenerFacts.

(** ** Who is sent what *)

Section Traffic.
Context `{Runtime}.

Lemma onMessage_sent w ws c data x p :
  sockets w !! ws = Some c ->
  In (x, p) (sent (snd (onMessage ws data w))) -> x = ws.
Proof.
  intros Hws. destruct (JSON_parse data) as [v|e] eqn:Hparse.
  - rewrite (onMessage_parsed _ _ _ _ Hparse).
    destruct (handleMessage_handled w ws c v Hws) as (r & w1 & e1 & -> & Hcase).
    destruct (handled_effects _ _ _ _ _ _ _ Hcase) as (Hsent & _ & _ & _ & Hthrow).
    destruct r as [[]|e]; simpl.
    + apply Hsent.
    + destruct (Hthrow e eq_refl) as [_ Hnone]. unfold caught.
      destruct (reason_too_long (message e)); simpl;
        by rewrite ?sent_app, Hnone.
  - rewrite (onMessage_parse_error _ _ _ _ Hparse). unfold caught.
    by destruct (reason_too_long (message e)).
Qed.

Lemma eligible_closing ws w : eligible (closing ws w) ws = false.
Proof.
  unfold eligible. destruct (sockets w !! ws) as [c|] eqn:Hws.
  - rewrite (closing_same _ _ _ Hws).
    unfold OPEN.
    destruct (Z.eqb_spec (readyState c) 1) as [Hopen|Hopen]; simpl; [done|].
    by rewrite (proj2 (Z.eqb_neq _ _) Hopen).
  - unfold closing. by rewrite Hws, Hws.
Qed.

(** X9: the manager sends a frame to a socket in two situations only:
    while handling a message that arrived on that very socket, and in a
    broadcast, when the socket is open with role [events] -- and then the
    frame is the serialized event.  Accepting, timing out, closing,
    the clock and the registry calls send nothing. *)
Theorem only_replies_and_broadcasts w ev r w' effs ws p :
  step w ev = Some (r, w', effs) -> In (ws, p) (sent effs) ->
  (exists data, ev = EvMessage ws data)
  \/ (exists sendErr eventType payload,
        ev = EvTriggerEvent sendErr eventType payload
        /\ eligible w ws = true
        /\ p = JSON_stringify (EventMessage eventType payload)).
Proof.
  destruct ev as [|addr|ws0 data|h|ws0|ms|sendErr eventType payload|name cb|name];
    simpl.
  - by intros [= <- <- <-].
  - destruct (server w) as [clients|] eqn:Hserver; [|done].
    pose proof (step_connection w addr clients Hserver) as Hstep.
    unfold step in Hstep. rewrite Hserver in Hstep. rewrite Hstep.
    by intros [= <- <- <-].
  - destruct (sockets w !! ws0) as [c|] eqn:Hws; [|done].
    destruct (_ || _); [|done].
    destruct (onMessage ws0 data w) as [[r0 w0] e0] eqn:Hrun.
    intros [= <- <- <-] Hin. left. exists data.
    assert (ws = ws0) as ->; [|done].
    eapply (onMessage_sent w ws0 c data); [done|]. by rewrite Hrun.
  - destruct (timers w !! h) as [t|] eqn:Ht; [|done].
    destruct (Z.leb_spec (due t) (now w)) as [Hdue|]; [|done].
    pose proof (step_timeout w h t Ht Hdue) as Hstep.
    unfold step in Hstep. rewrite Ht, (proj2 (Z.leb_le _ _) Hdue) in Hstep.
    rewrite Hstep. by intros [= <- <- <-].
  - destruct (sockets w !! ws0) as [c|] eqn:Hws; [|done].
    destruct (Z.eqb_spec (readyState c) CLOSED) as [|Hopen]; [done|].
    pose proof (step_close w ws0 c Hws Hopen) as Hstep.
    unfold step in Hstep. rewrite Hws, (proj2 (Z.eqb_neq _ _) Hopen) in Hstep.
    rewrite Hstep. by intros [= <- <- <-].
  - destruct (Z.leb 0 ms); [|done]. by intros [= <- <- <-].
  - rewrite triggerEvent_effects. intros [= <- <- <-] Hin. right.
    exists sendErr, eventType, payload. split; [done|].
    destruct (server w) as [clients|]; [|done].
    rewrite sent_deliveries in Hin.
    apply in_map_iff in Hin as (c & [= <- <-] & Hc).
    apply filter_In in Hc as [_ Hc]. done.
  - unfold ignore, registerCustomWebSocketListener. unfold_m. simpl.
    destruct (findIndex (customHandlers w) name); simpl; by intros [= <- <- <-].
  - unfold ignore, unregisterCustomWebSocketListener. unfold_m. simpl.
    destruct (findIndex (customHandlers w) name); simpl; by intros [= <- <- <-].
Qed.

(** X10: a tracked, open socket that has not subscribed is passed over
    by a broadcast; once its [subscribe-events] invoke has been handled,
    the next broadcast sends it the event frame. *)
Theorem subscribe_then_broadcast w ws c clients data v sendErr eventType payload :
  server w = Some clients -> In ws clients ->
  sockets w !! ws = Some c -> readyState c = 1 -> type c = None ->
  JSON_parse data = Normal v -> invokes "subscribe-events" v = true ->
  let w1 := snd (fst (onMessage ws data w)) in
  let frame := JSON_stringify (EventMessage eventType payload) in
  (forall p, ~ In (ws, p) (sent (snd (triggerEvent sendErr eventType payload w))))
  /\ In (ws, frame) (sent (snd (triggerEvent sendErr eventType payload w1))).
Proof.
  intros Hserver Hin Hws Hopen Hty Hparse Hsub w1 frame. subst w1 frame.
  rewrite (onMessage_subscribe_fresh w ws c data v) by done. simpl.
  rewrite !triggerEvent_effects. simpl.
  destruct (subscribing_rest ws w) as (-> & _). rewrite Hserver.
  rewrite !sent_deliveries. split.
  - intros p (x & [= <- <-] & Hx)%in_map_iff.
    apply filter_In in Hx as [_ Hx]. unfold eligible in Hx.
    rewrite Hws, Hty in Hx. by rewrite andb_false_r in Hx.
  - apply in_map_iff. exists ws. split; [done|].
    apply filter_In. split; [done|]. unfold eligible.
    rewrite (subscribing_same _ _ _ Hws). simpl. by rewrite Hopen.
Qed.

Lemma closing_not_open ws w x c :
  sockets w !! x = Some c -> readyState c <> 1 ->
  sockets (closing ws w) !! x = Some c.
Proof.
  intros Hx Hclosed. destruct (decide (x = ws)) as [->|Hne].
  - rewrite (closing_same _ _ _ Hx). unfold OPEN.
    by rewrite (proj2 (Z.eqb_neq _ _) Hclosed).
  - by rewrite closing_other.
Qed.

Lemma stepped_not_open w ev w' effs ws c :
  stepped w ev w' effs -> sockets w !! ws = Some c -> readyState c <> 1 ->
  exists c', sockets w' !! ws = Some c' /\ readyState c' <> 1.
Proof.
  intros Hstep Hws Hclosed. inversion Hstep; subst; simpl; eauto.
  - rewrite lookup_app_l by by eapply lookup_lt_Some. eauto.
  - rewrite (closing_not_open _ _ _ _ Hws Hclosed). eauto.
  - destruct (decide (ws = ws0)) as [->|Hne].
    + rewrite (subscribing_same _ _ _ Hws). eauto.
    + rewrite subscribing_other by done. eauto.
  - rewrite (closing_not_open (target t)
               (set_timers w (delete h (timers w)) (timerSeq w)) _ _ Hws Hclosed).
    eauto.
  - destruct (decide (ws = ws0)) as [->|Hne].
    + rewrite (lookup_insert_same _ _ _ _ Hws). eauto.
    + rewrite list_lookup_insert_ne by done. eauto.
Qed.

Lemma run_not_open evs w w' effs ws c :
  run w evs = Some (w', effs) -> sockets w !! ws = Some c -> readyState c <> 1 ->
  eligible w' ws = false.
Proof.
  revert w effs c. induction evs as [|ev rest IH]; intros w effs c.
  - intros [= <- <-] Hws Hclosed. unfold eligible. rewrite Hws.
    by rewrite (proj2 (Z.eqb_neq _ _) Hclosed).
  - intros (r1 & w1 & e1 & e2 & _ & Hstep & Hrun & _)%run_cons Hws Hclosed.
    destruct (stepped_not_open _ _ _ _ _ _ Hstep Hws Hclosed) as (c1 & Hc1 & Hclosed1).
    by eapply IH.
Qed.

(** X11: once a [ws.close] call of the manager on a socket has gone
    through -- with 4006 for a bad frame or with 4000 from the watchdog
    -- no broadcast reaches that socket any more, whatever happens next.
    (A call that throws for its reason is not such a call: it closes
    nothing.) *)
Theorem closed_socket_gets_no_events w ev r w1 effs ws code reason :
  reachable w ->
  step w ev = Some (r, w1, effs) -> In (ws, code, reason) (closed effs) ->
  forall evs w2 effs2 sendErr eventType payload p,
    run w1 evs = Some (w2, effs2) ->
    ~ In (ws, p) (sent (snd (triggerEvent sendErr eventType payload w2))).
Proof.
  intros Hreach Hstep Hin evs w2 effs2 sendErr eventType payload p Hrun.
  assert (eligible w2 ws = false) as Hno.
  { pose proof (reachable_watchdogs w Hreach) as Hinv.
    apply step_stepped in Hstep as [_ Hstep].
    assert (exists c, sockets w !! ws = Some c) as [c Hws].
    { inversion Hstep; subst; simpl in Hin;
        repeat match goal with
               | Heq : closed _ = _ |- _ => rewrite Heq in Hin
               end; simpl in Hin; try done.
      - destruct Hin as [[= <- _ _]|[]]. eauto.
      - destruct Hin as [[= <- _ _]|[]].
        destruct (Hinv _ _ ltac:(eassumption)) as (_ & c & ? & _). eauto. }
    assert (exists c1, sockets w1 !! ws = Some c1 /\ readyState c1 <> 1)
      as (c1 & Hc1 & Hclosed).
    { inversion Hstep; subst; simpl in Hin;
        repeat match goal with
               | Heq : closed _ = _ |- _ => rewrite Heq in Hin
               end; simpl in Hin; try done.
      - destruct Hin as [[= <- _ _]|[]].
        rewrite (closing_same _ _ _ Hws). eexists. split; [done|].
        unfold OPEN. destruct (Z.eqb_spec (readyState c) 1); simpl; [done|lia].
      - destruct Hin as [[= <- _ _]|[]].
        rewrite (closing_same (target t)
                   (set_timers w (delete h (timers w)) (timerSeq w)) _ Hws).
        eexists. split; [done|].
        unfold OPEN. destruct (Z.eqb_spec (readyState c) 1); simpl; [done|lia]. }
    by eapply run_not_open. }
  rewrite triggerEvent_effects. simpl.
  destruct (server w2) as [clients|]; [|by intros []].
  rewrite sent_deliveries. intros (x & Heq & Hx)%in_map_iff.
  injection Heq as -> _. apply filter_In in Hx as [_ Hx]. congruence.
Qed.

End Traffic.

(** ** More invariants of the connection lifecycle *)

Section LifecycleInvariants.
Context `{Runtime}.

(** Where a socket of the world after a step comes from. *)
Lemma stepped_inv w ev w' effs x c' :
  stepped w ev w' effs -> sockets w' !! x = Some c' ->
  (exists c, sockets w !! x = Some c
             /\ registrationTimeout c' = registrationTimeout c
             /\ (c' = c
                 \/ (readyState c' <> OPEN /\ type c' = type c)
                 \/ (type c' = Some "events" /\ type c = None)))
  \/ (sockets w !! x = None /\ x = length (sockets w)
      /\ exists addr, ev = EvConnection addr
                      /\ c' = mkClient addr None (Some (timerSeq w)) OPEN).
Proof.
  assert (forall ws0 w0, sockets w0 = sockets w ->
            sockets (closing ws0 w0) !! x = Some c' ->
            exists c, sockets w !! x = Some c
                      /\ registrationTimeout c' = registrationTimeout c
                      /\ (c' = c \/ (readyState c' <> OPEN /\ type c' = type c)
                          \/ (type c' = Some "events" /\ type c = None)))
    as Hclosing.
  { intros ws0 w0 Hsame. unfold closing. rewrite Hsame.
    destruct (sockets w !! ws0) as [c0|] eqn:Hc0; [|rewrite Hsame; eauto].
    simpl. destruct (decide (x = ws0)) as [->|Hne].
    - rewrite (lookup_insert_same _ _ _ _ Hc0). intros [= <-]. exists c0.
      split; [done|]. unfold OPEN.
      destruct (Z.eqb_spec (readyState c0) 1) as [Heq|Hneq]; simpl; [|auto].
      split; [done|]. right. left. done.
    - rewrite list_lookup_insert_ne by done. eauto. }
  intros Hstep Hx. inversion Hstep; subst;
    try (left; by eauto 8);
    try (left; by apply (Hclosing (target t)
                           (set_timers w (delete h (timers w)) (timerSeq w)))).
  - simpl in Hx. destruct (decide (x < length (sockets w))%nat) as [Hlt|Hge].
    + rewrite lookup_app_l in Hx by done. eauto 8.
    + rewrite lookup_app_r in Hx by lia.
      destruct (x - length (sockets w))%nat as [|n] eqn:Hdiff; [|done].
      injection Hx as <-. right.
      split; [apply lookup_ge_None; lia|]. split; [lia|]. eauto.
  - left. unfold subscribing in Hx.
    match goal with Hc : sockets w !! ws = Some c |- _ => rewrite Hc in Hx end.
    simpl in Hx. destruct (decide (x = ws)) as [->|Hne].
    + rewrite (lookup_insert_same _ _ _ c) in Hx by done. injection Hx as <-.
      exists c. simpl. split; [done|]. split; [done|]. right. right. done.
    + rewrite list_lookup_insert_ne in Hx by done. eauto 8.
  - left. simpl in Hx. destruct (decide (x = ws)) as [->|Hne].
    + rewrite (lookup_insert_same _ _ _ c) in Hx by done. injection Hx as <-.
      exists c. simpl. split; [done|]. split; [done|]. right. left. done.
    + rewrite list_lookup_insert_ne in Hx by done. eauto 8.
Qed.

Lemma stepped_roles w ev w' effs :
  stepped w ev w' effs -> roles_known w -> roles_known w'.
Proof.
  intros Hstep Hinv ws c' Hws.
  destruct (stepped_inv _ _ _ _ _ _ Hstep Hws)
    as [(c & Hc & _ & Hrel)|(_ & _ & addr & _ & ->)]; [|by left].
  destruct Hrel as [->|[[_ ->]|[-> _]]]; eauto.
Qed.

(** X12: in every world the event loop can reach, the role of a socket
    is either unset or ["events"]: the listener assigns no other value. *)
Theorem role_is_unset_or_events w ws c :
  reachable w -> sockets w !! ws = Some c ->
  type c = None \/ type c = Some "events".
Proof.
  intros Hreach. revert ws c.
  induction Hreach as [|w ev r w' effs _ IH Hstep].
  - intros ws c Hws. simpl in Hws. by rewrite lookup_nil in Hws.
  - apply step_stepped in Hstep as [_ Hstep]. by eapply stepped_roles.
Qed.

Lemma stepped_clock w ev w' effs :
  stepped w ev w' effs ->
  now w <= now w' /\ (timerSeq w <= timerSeq w')%nat.
Proof.
  intros Hstep. inversion Hstep; subst; simpl; try (split; lia).
  - destruct (closing_rest ws w) as (_ & _ & _ & -> & -> & _). lia.
  - destruct (subscribing_rest ws w) as (_ & _ & -> & ->). lia.
  - destruct (closing_rest (target t)
                (set_timers w (delete h (timers w)) (timerSeq w)))
      as (_ & _ & _ & -> & -> & _). simpl. lia.
Qed.

Lemma stepped_handles w ev w' effs :
  stepped w ev w' effs -> handles_distinct w -> handles_distinct w'.
Proof.
  intros Hstep [Hbound Hinj].
  destruct (stepped_clock _ _ _ _ Hstep) as [_ Hseq].
  assert (forall a c' h, sockets w' !! a = Some c' ->
            registrationTimeout c' = Some h ->
            (exists c, sockets w !! a = Some c /\ registrationTimeout c = Some h
                       /\ (h < timerSeq w)%nat)
            \/ (a = length (sockets w) /\ h = timerSeq w
                /\ timerSeq w' = S (timerSeq w))) as Horigin.
  { intros a c' h Ha Hh.
    destruct (stepped_inv _ _ _ _ _ _ Hstep Ha)
      as [(c & Hc & Hsame & _)|(_ & -> & addr & -> & ->)].
    - left. exists c. rewrite Hsame in Hh. eauto.
    - right. injection Hh as <-. by inversion Hstep. }
  split.
  - intros a c' h Ha Hh.
    destruct (Horigin _ _ _ Ha Hh) as [(c & _ & _ & Hlt)|(_ & -> & ->)]; lia.
  - intros a b ca cb h Ha Hb Hha Hhb.
    destruct (Horigin _ _ _ Ha Hha) as [(c1 & Hc1 & Hh1 & Hlt1)|(-> & -> & _)],
             (Horigin _ _ _ Hb Hhb) as [(c2 & Hc2 & Hh2 & Hlt2)|(-> & Heq & _)];
      try lia.
    by eapply Hinj.
Qed.

Lemma stepped_timer w ev w' effs h t :
  stepped w ev w' effs -> watchdogs_consistent w -> timers w !! h = Some t ->
  timers w' !! h = Some t
  \/ ev = EvTimeout h
  \/ (exists ws c data,
        ev = EvMessage ws data /\ sockets w !! ws = Some c
        /\ registrationTimeout c = Some h /\ w' = subscribing ws w).
Proof.
  intros Hstep Hinv Ht. inversion Hstep; subst; simpl; auto.
  - left. destruct (Hinv _ _ Ht) as [Hlt _].
    rewrite lookup_insert_ne by lia. done.
  - left. by destruct (closing_rest ws w) as (_ & _ & -> & _).
  - destruct (decide (registrationTimeout c = Some h)) as [Heq|Hne].
    + right. right. eauto 8.
    + left. by rewrite (subscribing_timers ws w c).
  - destruct (decide (h0 = h)) as [->|Hne]; [auto|]. left.
    destruct (closing_rest (target t0)
                (set_timers w (delete h0 (timers w)) (timerSeq w)))
      as (_ & _ & -> & _). simpl.
    by rewrite lookup_delete_ne.
Qed.

Lemma stepped_watched w ev w' effs :
  stepped w ev w' effs ->
  watchdogs_consistent w -> handles_distinct w -> watched w -> watched w'.
Proof.
  intros Hstep Hinv [_ Hinj] Hwatched ws c' Hws Hty Hopen.
  destruct (stepped_clock _ _ _ _ Hstep) as [Hnow _].
  destruct (stepped_inv _ _ _ _ _ _ Hstep Hws)
    as [(c & Hc & _ & Hrel)|(_ & -> & addr & -> & ->)].
  - destruct Hrel as [->|[[Hclosed _]|[Hevents _]]]; [|done|congruence].
    destruct (Hwatched _ _ Hc Hty Hopen) as (h & t & Hh & Ht & Htarget & Hdue).
    destruct (stepped_timer _ _ _ _ _ _ Hstep Hinv Ht)
      as [Ht'|[->|(ws0 & c0 & data & -> & Hc0 & Hh0 & ->)]].
    + exists h, t. split_and!; try done. lia.
    + exfalso. inversion Hstep; subst. simplify_eq.
      rewrite (closing_same (target t)
                 (set_timers w (delete h (timers w)) (timerSeq w)) _ Hc) in Hws.
      injection Hws as Hws. unfold OPEN in *.
      rewrite (proj2 (Z.eqb_eq _ _) Hopen) in Hws. rewrite <- Hws in Hopen.
      done.
    + exfalso. assert (ws0 = ws) as -> by by eapply Hinj.
      rewrite (subscribing_same _ _ _ Hc) in Hws. injection Hws as Hws.
      apply (f_equal type) in Hws. simpl in Hws. congruence.
  - inversion Hstep; subst. simpl.
    exists (timerSeq w), (mkTimer (now w + 5000) (length (sockets w))).
    split_and!; try done; try apply lookup_insert_eq.
Qed.

Lemma reachable_lifecycle w :
  reachable w -> watchdogs_consistent w /\ handles_distinct w /\ watched w.
Proof.
  induction 1 as [|w ev r w' effs Hreach (Hinv & Hhandles & Hwatched) Hstep].
  - split; [|split].
    + intros h t Ht. simpl in Ht. by rewrite lookup_empty in Ht.
    + split.
      * intros a c h Ha. simpl in Ha. by rewrite lookup_nil in Ha.
      * intros a b ca cb h Ha. simpl in Ha. by rewrite lookup_nil in Ha.
    + intros ws c Hws. simpl in Hws. by rewrite lookup_nil in Hws.
  - apply step_stepped in Hstep as [_ Hstep].
    split_and!; [by eapply stepped_watchdogs|by eapply stepped_handles
                |by eapply stepped_watched].
Qed.

(** X13: in every reachable world an open socket that has not
    subscribed is still under its watchdog: the timeout whose handle it
    holds is pending, targets that socket, and is due no later than
    5000 ms from now.  No open connection can stay unregistered without
    a close being scheduled. *)
Theorem unregistered_socket_is_watched w ws c :
  reachable w ->
  sockets w !! ws = Some c -> type c = None -> readyState c = OPEN ->
  exists h t,
    registrationTimeout c = Some h /\ timers w !! h = Some t
    /\ target t = ws /\ due t <= now w + 5000.
Proof.
  intros Hreach. destruct (reachable_lifecycle w Hreach) as (_ & _ & Hwatched).
  apply Hwatched.
Qed.

Lemma stepped_timer_inv w ev w' effs h t :
  stepped w ev w' effs -> timers w' !! h = Some t ->
  timers w !! h = Some t \/ target t = length (sockets w).
Proof.
  intros Hstep Ht. inversion Hstep; subst; simpl in Ht; auto.
  - apply lookup_insert_Some in Ht as [[_ <-]|[_ Ht]]; auto.
  - left. by destruct (closing_rest ws w) as (_ & _ & <- & _).
  - left. unfold subscribing in Ht.
    match goal with Hc : sockets w !! ws = Some c |- _ => rewrite Hc in Ht end.
    simpl in Ht. destruct (registrationTimeout c); [|done].
    by apply lookup_delete_Some in Ht as [_ Ht].
  - left. destruct (closing_rest (target t0)
                      (set_timers w (delete h0 (timers w)) (timerSeq w)))
      as (_ & _ & Heq & _). rewrite Heq in Ht. simpl in Ht.
    by apply lookup_delete_Some in Ht as [_ Ht].
Qed.

Lemma stepped_length w ev w' effs :
  stepped w ev w' effs -> (length (sockets w) <= length (sockets w'))%nat.
Proof.
  intros Hstep. inversion Hstep; subst; simpl; try lia.
  - rewrite length_app. simpl. lia.
  - destruct (closing_rest ws w) as (_ & _ & _ & _ & _ & ->). lia.
  - unfold subscribing. destruct (sockets w !! ws); simpl;
      rewrite ?length_insert; lia.
  - destruct (closing_rest (target t)
                (set_timers w (delete h (timers w)) (timerSeq w)))
      as (_ & _ & _ & _ & _ & ->). simpl. lia.
  - rewrite length_insert. lia.
Qed.

Lemma stepped_unwatched w ev w' effs ws :
  stepped w ev w' effs -> unwatched w ws -> unwatched w' ws.
Proof.
  intros Hstep [Hlt Hnone]. split.
  - pose proof (stepped_length _ _ _ _ Hstep). lia.
  - intros h t Ht.
    destruct (stepped_timer_inv _ _ _ _ _ _ Hstep Ht) as [Ht'|Hnew]; [eauto|lia].
Qed.

Lemma watchdog_closes_app ws e1 e2 :
  watchdog_closes ws (e1 ++ e2) = watchdog_closes ws e1 ++ watchdog_closes ws e2.
Proof. unfold watchdog_closes. by rewrite closed_app, List.filter_app. Qed.

(** The closes with code 4000 that one step makes on [ws]: one when the
    step fires the watchdog of [ws], none otherwise. *)
Lemma stepped_watchdog_closes w ev w' effs ws :
  stepped w ev w' effs ->
  (watchdog_closes ws effs = []
   \/ (exists h t, ev = EvTimeout h /\ timers w !! h = Some t /\ target t = ws
                   /\ length (watchdog_closes ws effs) = 1%nat)).
Proof.
  intros Hstep. unfold watchdog_closes.
  inversion Hstep; subst; simpl;
    repeat match goal with
           | Heq : closed _ = _ |- _ => rewrite Heq
           end; simpl; auto.
  - left. by rewrite andb_false_r.
  - destruct (Nat.eqb_spec (target t) ws) as [Heq|Hne]; simpl; [|auto].
    right. eauto 8.
Qed.

Lemma run_unwatched evs w w' effs ws :
  run w evs = Some (w', effs) -> unwatched w ws -> watchdog_closes ws effs = [].
Proof.
  revert w effs. induction evs as [|ev rest IH]; intros w effs.
  - by intros [= <- <-].
  - intros (r1 & w1 & e1 & e2 & _ & Hstep & Hrun & ->)%run_cons Hun.
    rewrite watchdog_closes_app.
    rewrite (IH _ _ Hrun (stepped_unwatched _ _ _ _ _ Hstep Hun)), app_nil_r.
    destruct (stepped_watchdog_closes _ _ _ _ ws Hstep)
      as [Hnone|(h & t & _ & Ht & Htarget & _)]; [done|].
    destruct Hun as [_ Hun]. by destruct (Hun _ _ Ht).
Qed.

Lemma fired_unwatched w h t :
  watchdogs_consistent w -> timers w !! h = Some t ->
  unwatched (closing (target t) (set_timers w (delete h (timers w)) (timerSeq w)))
            (target t).
Proof.
  intros Hinv Ht. destruct (Hinv _ _ Ht) as (_ & c & Hc & Hh & _).
  destruct (closing_rest (target t)
              (set_timers w (delete h (timers w)) (timerSeq w)))
    as (_ & _ & Htimers & _ & _ & Hlen).
  split.
  - rewrite Hlen. simpl. by eapply lookup_lt_Some.
  - intros h' t'. rewrite Htimers. simpl.
    intros [Hne Ht']%lookup_delete_Some Htarget.
    destruct (Hinv _ _ Ht') as (_ & c' & Hc' & Hh' & _).
    rewrite Htarget in Hc'. congruence.
Qed.

(** X14: the watchdog is one-shot per connection: in any run from a
    reachable world, [ws.close(4000, ...)] is called at most once on any
    one socket. *)
Theorem watchdog_closes_once w evs w' effs ws :
  reachable w -> run w evs = Some (w', effs) ->
  (length (watchdog_closes ws effs) <= 1)%nat.
Proof.
  intros Hinv%reachable_watchdogs. revert w effs Hinv.
  induction evs as [|ev rest IH]; intros w effs Hinv.
  - intros [= <- <-]. simpl. lia.
  - intros (r1 & w1 & e1 & e2 & _ & Hstep & Hrun & ->)%run_cons.
    rewrite watchdog_closes_app, length_app.
    destruct (stepped_watchdog_closes _ _ _ _ ws Hstep)
      as [->|(h & t & -> & Ht & <- & ->)].
    + simpl. eapply IH; [|done]. by eapply stepped_watchdogs.
    + inversion Hstep; subst. simplify_eq.
      rewrite (run_unwatched _ _ _ _ _ Hrun (fired_unwatched _ _ _ Hinv Ht)).
      simpl. lia.
Qed.

End LifecycleInvariants.

(** ** The built-in loaders *)

Section LoaderFacts.
Import Loaders.
Variables Exports Manager : Type.
Variable require : string -> Completion Exports.
Variable register : Exports -> Manager -> Completion unit * Manager.

Local Abbreviation went_through := (went_through Exports Manager require register).
Local Abbreviation attempt := (attempt Exports require).
Local Abbreviation loaded_all := (loaded_all Exports Manager require register).

Lemma requested_attempts tried : requested (flat_map attempt tried) = tried.
Proof.
  induction tried as [|p rest IH]; [reflexivity|].
  simpl. unfold requested in *. simpl. rewrite omap_app, IH.
  by destruct (require p).
Qed.

Lemma loaded_all_app paths1 paths2 m m1 m2 :
  loaded_all paths1 m m1 -> loaded_all paths2 m1 m2 ->
  loaded_all (paths1 ++ paths2) m m2.
Proof.
  induction 1 as [|path rest d m m0 m1 Hreq Hreg _ IH]; [done|].
  intros Hrest. simpl. econstructor; eauto.
Qed.

Lemma loaded_all_registered paths m m' :
  loaded_all paths m m' ->
  List.map require paths = List.map Normal (registered (flat_map attempt paths)).
Proof.
  induction 1 as [|path rest d m m0 m1 Hreq Hreg _ IH]; [done|].
  simpl. unfold Loaders.attempt at 1. rewrite Hreq. simpl.
  unfold registered in *. simpl. by rewrite IH.
Qed.

Lemma forEachModule_went_through prefix suffix filenames m r m' calls :
  forEachModule Exports Manager require register prefix suffix filenames m
  = (r, m', calls) ->
  went_through (List.map (fun f => (prefix ++ f ++ suffix)%string) filenames)
               m r m' calls.
Proof.
  revert m r m' calls.
  induction filenames as [|f rest IH]; intros m r m' calls; simpl.
  - intros [= <- <- <-]. exists [], []. split_and!; try done.
    intros _. split; [done|constructor].
  - set (path := (prefix ++ f ++ suffix)%string).
    destruct (require path) as [d|e] eqn:Hreq.
    + destruct (register d m) as [[[]|e] m1] eqn:Hreg.
      * destruct (forEachModule _ _ _ _ _ _ rest m1) as [[r1 m2] calls1] eqn:Hrest.
        intros [= <- <- <-].
        destruct (IH _ _ _ _ Hrest) as (tried & left & Hpaths & Hcalls & Hok & Hfail).
        exists (path :: tried), left. split_and!.
        -- simpl. by rewrite Hpaths.
        -- simpl. unfold Loaders.attempt at 1. by rewrite Hreq, Hcalls.
        -- intros Hr. destruct (Hok Hr) as [-> Hall]. split; [done|].
           by econstructor.
        -- intros e Hr. destruct (Hfail e Hr) as (ok & p & m0 & -> & Hall & Hp).
           exists (path :: ok), p, m0. split_and!; try done.
           by econstructor.
      * intros [= <- <- <-].
        exists [path], (List.map (fun f => (prefix ++ f ++ suffix)%string) rest).
        split_and!; try done.
        -- simpl. unfold Loaders.attempt. by rewrite Hreq.
        -- intros e0 [= <-]. exists [], path, m. split_and!; try done.
           ++ constructor.
           ++ right. by exists d.
    + intros [= <- <- <-].
      exists [path], (List.map (fun f => (prefix ++ f ++ suffix)%string) rest).
      split_and!; try done.
      * simpl. unfold Loaders.attempt. by rewrite Hreq.
      * intros e0 [= <-]. exists [], path, m. split_and!; try done.
        -- constructor.
        -- by left.
Qed.

Lemma went_through_app paths1 paths2 m m1 m2 r calls1 calls2 :
  went_through paths1 m (Normal tt) m1 calls1 ->
  went_through paths2 m1 r m2 calls2 ->
  went_through (paths1 ++ paths2) m r m2 (calls1 ++ calls2).
Proof.
  intros (tried1 & rest1 & -> & -> & Hok1 & _) (tried2 & rest2 & -> & -> & Hok2 & Hfail2).
  destruct (Hok1 eq_refl) as [-> Hall1].
  exists (tried1 ++ tried2), rest2. split_and!.
  - by rewrite app_nil_r, app_assoc.
  - by rewrite flat_map_app.
  - intros Hr. destruct (Hok2 Hr) as [-> Hall2]. split; [done|].
    by eapply loaded_all_app.
  - intros e Hr. destruct (Hfail2 e Hr) as (ok & p & m0 & -> & Hall2 & Hp).
    exists (tried1 ++ ok), p, m0. split_and!; [by rewrite app_assoc| |done].
    by eapply loaded_all_app.
Qed.

Lemma went_through_early paths1 paths2 m m' e calls :
  went_through paths1 m (Throw e) m' calls ->
  went_through (paths1 ++ paths2) m (Throw e) m' calls.
Proof.
  intros (tried & rest & -> & -> & _ & Hfail).
  exists tried, (rest ++ paths2). split_and!; try done. by rewrite app_assoc.
Qed.

Lemma tried_within (l1 l2 ok rest : list string) p q :
  l1 ++ l2 = ok ++ p :: rest -> In p l1 -> ~ In p l2 -> In q ok -> In q l1.
Proof.
  revert ok. induction l1 as [|a l1 IH]; intros ok Heq Hp Hnot Hq; [done|].
  destruct ok as [|b ok]; [done|]. simpl in Heq. injection Heq as <- Heq.
  destruct Hq as [->|Hq]; [by left|]. right.
  apply (IH ok); try done.
  destruct Hp as [->|Hp]; [|done].
  assert (In p (l1 ++ l2)) as [?|?]%in_app_iff; try done.
  rewrite Heq. apply in_app_iff. right. by left.
Qed.

Lemma effect_paths_apart :
  forall p, In p builtinEffectPaths -> In p twitchEffectPaths -> False.
Proof.
  assert (Forall (fun p => p ∉ twitchEffectPaths) builtinEffectPaths) as Hall.
  { apply (bool_decide_unpack _). by vm_compute. }
  intros p Hb Ht. rewrite Forall_forall in Hall.
  apply (Hall p); by apply list_elem_of_In.
Qed.

(** X15: [loadEffects] goes through its 80 module paths -- the 61
    built-in effects, then the 19 Twitch effects, no path twice -- in the
    order they are listed, requiring a module and registering what it
    exports, in the manager the modules before it left, before turning
    to the next.  It returns normally only after every module was
    required and its registration returned; the first throw, from
    [require] or from a registration, ends the loading with that error
    and with the manager as the failing call left it, and nothing after
    the failing module is touched.  In particular, when a built-in
    effect fails, no Twitch effect is required. *)
Theorem loadEffects_order m r m' calls :
  loadEffects Exports Manager require register m = (r, m', calls) ->
  went_through (builtinEffectPaths ++ twitchEffectPaths) m r m' calls
  /\ NoDup (builtinEffectPaths ++ twitchEffectPaths)
  /\ length (builtinEffectPaths ++ twitchEffectPaths) = 80%nat
  /\ (forall e path q,
        r = Throw e -> last (requested calls) = Some path ->
        In path builtinEffectPaths -> In q twitchEffectPaths ->
        ~ In q (requested calls)).
Proof.
  intros Hload.
  assert (went_through (builtinEffectPaths ++ twitchEffectPaths) m r m' calls)
    as Hwent.
  { unfold loadEffects in Hload.
    destruct (forEachModule _ _ _ _ "./builtin/" _ _ m) as [[r1 m1] calls1] eqn:Hfirst.
    apply forEachModule_went_through in Hfirst.
    change (List.map _ builtinEffects) with builtinEffectPaths in Hfirst.
    destruct r1 as [[]|e].
    - destruct (forEachModule _ _ _ _ _ _ twitchEffects m1)
        as [[r2 m2] calls2] eqn:Hsecond.
      apply forEachModule_went_through in Hsecond.
      change (List.map _ twitchEffects) with twitchEffectPaths in Hsecond.
      injection Hload as <- <- <-. by eapply went_through_app.
    - injection Hload as <- <- <-. by apply went_through_early. }
  split; [done|]. split; [apply (bool_decide_unpack _); by vm_compute|].
  split; [reflexivity|].
  intros e path q -> Hlast Hbuiltin Htwitch Hq.
  destruct Hwent as (tried & rest & Hpaths & -> & _ & Hfail).
  destruct (Hfail e eq_refl) as (ok & p & m0 & -> & _ & _).
  rewrite requested_attempts in Hlast, Hq.
  rewrite last_snoc in Hlast. injection Hlast as ->.
  rewrite <- app_assoc in Hpaths.
  change ([path] ++ rest) with (path :: rest) in Hpaths.
  apply in_app_iff in Hq as [Hq|[->|[]]].
  - apply (effect_paths_apart q); [|done].
    apply (tried_within _ _ _ _ path q Hpaths); try done.
    intros Hin. by apply (effect_paths_apart path).
  - by apply (effect_paths_apart q).
Qed.

(** X16: [loadIntegrations] goes through its 8 module paths
    ([./builtin/<name>.js], no path twice) in the order they are listed,
    registering each module, in the manager the modules before it left,
    before requiring the next; it returns normally only after the
    registration of every one returned, and the first throw, from
    [require] or from a registration, ends the loading with that error,
    the manager as the failing call left it and nothing after the
    failing module touched. *)
Theorem loadIntegrations_order m r m' calls :
  loadIntegrations Exports Manager require register m = (r, m', calls) ->
  went_through integrationPaths m r m' calls
  /\ NoDup integrationPaths
  /\ (r = Normal tt ->
      requested calls = integrationPaths
      /\ List.map require integrationPaths = List.map Normal (registered calls)).
Proof.
  intros Hload. unfold loadIntegrations in Hload.
  apply forEachModule_went_through in Hload.
  change (List.map _ integrations) with integrationPaths in Hload.
  split; [done|]. split; [apply (bool_decide_unpack _); by vm_compute|].
  intros ->. destruct Hload as (tried & rest & -> & -> & Hok & _).
  destruct (Hok eq_refl) as [-> Hall]. rewrite app_nil_r, requested_attempts.
  split; [done|]. by eapply loaded_all_registered.
Qed.

End LoaderFacts.

(** ** The claims on concrete runs *)

Import Samples.

Lemma accepted_reachable : reachable accepted.
Proof.
  eapply (reachable_step _ (EvConnection "10.0.0.1")).
  - eapply (reachable_step _ EvCreateServer);
      [apply reachable_initial|reflexivity].
  - reflexivity.
Qed.

Lemma with_foo_reachable : reachable with_foo.
Proof.
  eapply (reachable_step accepted (EvRegister "foo" quiet));
    [apply accepted_reachable|reflexivity].
Qed.

Lemma with_verbose_reachable : reachable with_verbose.
Proof.
  eapply (reachable_step accepted (EvRegister "foo" verbose));
    [apply accepted_reachable|reflexivity].
Qed.

Lemma other_frames_ignored_witness :
  JSON_parse (stringify response_1) = Normal response_1
  /\ is_invoke response_1 = false
  /\ onMessage 0 (stringify response_1) accepted
     = (Normal tt, accepted, [incoming accepted 0 (stringify response_1)]).
Proof.
  split; [reflexivity|]. split; [reflexivity|].
  apply (other_frames_ignored accepted 0%nat (stringify response_1) response_1);
    [reflexivity|reflexivity|discriminate].
Defined.

(** C6: on a started server with one open socket and a handler [foo]
    whose callback throws an error with a message of 124 bytes, a plugin
    invoke for [Foo] makes the callback throw; in the [catch] block
    [ws.close(4006, error.message)] throws its [RangeError] in turn: no
    close with code 4006 (or any other) is performed, nothing is sent,
    and the exception leaves the ['message'] listener. *)
Theorem long_reason_escapes :
  reachable with_verbose
  /\ sockets with_verbose !! 0%nat
     = Some (mkClient "10.0.0.1" None (Some 0%nat) OPEN)
  /\ JSON_parse (stringify plugin_Foo) = Normal plugin_Foo
  /\ String.length long_message = 124%nat
  /\ handleMessage 0 plugin_Foo with_verbose
     = (Throw (mkError "Error" long_message), with_verbose,
        [CallbackCall "foo" (JString "hi")])
  /\ exists w' effs,
       onMessage 0 (stringify plugin_Foo) with_verbose
       = (Throw (mkError "RangeError"
                         "The message must not be greater than 123 bytes"),
          w', effs)
       /\ closed effs = []
       /\ sent effs = []
       /\ called effs = [("foo", JString "hi")].
Proof.
  split; [apply with_verbose_reachable|]. do 4 (split; [reflexivity|]).
  eexists _, _. split; [reflexivity|]. by split_and!.
Qed.

(** A frame that is not JSON, on the same socket: the parser's message
    fits a close frame and the socket is closed with it. *)
Example short_reason_closes :
  exists effs,
    onMessage 0 "oops" accepted = (Normal tt, closing 0 accepted, effs)
    /\ closed effs = [(0%nat, 4006, "Unexpected token")]
    /\ sent effs = [].
Proof.
  apply (fatal_close accepted 0%nat (mkClient "10.0.0.1" None (Some 0%nat) OPEN)
           "oops" (mkError "SyntaxError" "Unexpected token"));
    [reflexivity|reflexivity|left; reflexivity].
Qed.

Lemma invoke_answered_once_witness :
  sockets accepted !! 0%nat = Some (mkClient "10.0.0.1" None (Some 0%nat) OPEN)
  /\ JSON_parse (stringify plugin_empty) = Normal plugin_empty
  /\ is_invoke plugin_empty = true
  /\ fst (fst (handleMessage 0 plugin_empty accepted)) = Normal tt
  /\ exists w' effs,
       onMessage 0 (stringify plugin_empty) accepted = (Normal tt, w', effs)
       /\ closed effs = []
       /\ match named_handler (customHandlers accepted) plugin_empty with
          | Some p =>
              sent effs = []
              /\ called effs = [(pluginName p, field plugin_empty "data")]
          | None =>
              exists name payload,
                (name = "success" \/ name = "error")
                /\ sent effs =
                     [(0%nat, JSON_stringify
                                (JObject [("type", JString "response");
                                          ("id", field plugin_empty "id");
                                          ("name", JString name);
                                          ("data", payload)]))]
                /\ called effs = []
          end.
Proof.
  split; [reflexivity|]. split; [reflexivity|]. split; [reflexivity|].
  split; [reflexivity|].
  apply (invoke_answered_once accepted 0%nat
           (mkClient "10.0.0.1" None (Some 0%nat) OPEN)
           (stringify plugin_empty) plugin_empty); reflexivity.
Defined.

(** The frame names the registered handler [foo]: it is handled without
    an exception, the callback is called, and no frame is sent. *)
Lemma registered_plugin_unanswered :
  JSON_parse (stringify plugin_Foo) = Normal plugin_Foo
  /\ is_invoke plugin_Foo = true
  /\ fst (fst (handleMessage 0 plugin_Foo with_foo)) = Normal tt
  /\ onMessage 0 (stringify plugin_Foo) with_foo
     = (Normal tt, with_foo,
        [incoming with_foo 0 (stringify plugin_Foo); CallbackCall "foo" (JString "hi")])
  /\ sent [incoming with_foo 0 (stringify plugin_Foo); CallbackCall "foo" (JString "hi")]
     = []
  /\ ~ exists payload,
         sent (snd (onMessage 0 (stringify plugin_Foo) with_foo)) = [(0%nat, payload)].
Proof.
  split; [reflexivity|]. split; [reflexivity|]. split; [reflexivity|].
  split; [reflexivity|]. split; [reflexivity|].
  intros [payload Hsent]. discriminate Hsent.
Qed.

Lemma plugin_invoke_witness :
  JSON_parse (stringify plugin_Foo) = Normal plugin_Foo
  /\ invokes "plugin" plugin_Foo = true
  /\ field plugin_Foo "pluginName" = JString "Foo"
  /\ lookup_handler (customHandlers with_foo) "Foo" = Some (mkHandler "foo" quiet)
  /\ (exists r w' effs,
        onMessage 0 (stringify plugin_Foo) with_foo = (r, w', effs)
        /\ called effs = [("foo", JString "hi")]
        /\ sent effs = [])
  /\ (quiet (JString "hi") = Normal tt ->
      onMessage 0 (stringify plugin_Foo) with_foo
      = (Normal tt, with_foo,
         [incoming with_foo 0 (stringify plugin_Foo);
          CallbackCall "foo" (JString "hi")])).
Proof.
  split; [reflexivity|]. split; [reflexivity|]. split; [reflexivity|].
  split; [reflexivity|].
  destruct (plugin_invoke with_foo 0%nat (stringify plugin_Foo) plugin_Foo)
    as (_ & Hfound & _); [reflexivity|reflexivity|].
  destruct (Hfound "Foo") as (Hcalled & Hreturns & _);
    [reflexivity|discriminate|].
  split; [exact Hcalled|exact Hreturns].
Defined.

(** A [pluginName] that is the number 5, with handler [foo] registered:
    the name is neither missing nor empty and names no handler, yet no
    error response is sent; the comparison throws and the socket is
    closed. *)
Lemma numeric_pluginName_closes :
  JSON_parse (stringify plugin_5) = Normal plugin_5
  /\ invokes "plugin" plugin_5 = true
  /\ field plugin_5 "pluginName" = JNumber 5
  /\ onMessage 0 (stringify plugin_5) with_foo
     = (Normal tt, closing 0 with_foo,
        [incoming with_foo 0 (stringify plugin_5);
         WsClose 0 4006 "pluginName.toLowerCase is not a function"])
  /\ sent (snd (onMessage 0 (stringify plugin_5) with_foo)) = []
  /\ called (snd (onMessage 0 (stringify plugin_5) with_foo)) = [].
Proof. repeat split; reflexivity. Qed.

Lemma broadcast_send_errors_witness :
  server crowd = Some [0; 1; 2; 3]%nat
  /\ exists effs,
       triggerEvent flaky "test" JNull crowd = (Normal tt, crowd, effs)
       /\ sent effs = sent (snd (triggerEvent (fun _ => None) "test" JNull crowd))
       /\ sent effs =
            List.map (fun c => (c, JSON_stringify (EventMessage "test" JNull)))
                     (List.filter (eligible crowd) [0; 1; 2; 3]%nat)
       /\ closed effs = []
       /\ (forall c err, In c (List.filter (eligible crowd) [0; 1; 2; 3]%nat) ->
             flaky c = Some err -> In (LogError (message err)) effs)
       /\ (forall e, In e effs ->
             (exists c, e = WsSend c (JSON_stringify (EventMessage "test" JNull))
                        /\ In c (List.filter (eligible crowd) [0; 1; 2; 3]%nat))
             \/ (exists c err, e = LogError (message err) /\ flaky c = Some err
                               /\ In c (List.filter (eligible crowd) [0; 1; 2; 3]%nat))).
Proof.
  split; [reflexivity|].
  apply (broadcast_send_errors flaky "test" JNull crowd [0; 1; 2; 3]%nat).
  reflexivity.
Defined.

(** The broadcast of the specification's example: the two ready
    subscribers get the frame, the closing one and the unsubscribed one
    do not, and the failed send is logged. *)
Example broadcast_crowd :
  triggerEvent flaky "test" JNull crowd
  = (Normal tt, crowd,
     [WsSend 0 (stringify (EventMessage "test" JNull));
      WsSend 1 (stringify (EventMessage "test" JNull));
      LogError "write EPIPE"]).
Proof. reflexivity. Qed.

Lemma register_unique_witness :
  reachable with_foo
  /\ lookup_handler (customHandlers with_foo) "FOO" = Some (mkHandler "foo" quiet)
  /\ registerCustomWebSocketListener "FOO" failing with_foo
     = (Normal false, with_foo,
        [LogError ("Custom WebSocket listener " ++ quoted "FOO"
                   ++ " already registered")%string])
  /\ distinct_names (customHandlers with_foo).
Proof.
  split; [apply with_foo_reachable|]. split; [reflexivity|].
  destruct (register_unique with_foo "FOO" failing with_foo_reachable)
    as (Hrefused & _ & Hdistinct & _).
  split; [|exact Hdistinct]. apply Hrefused. discriminate.
Defined.

(** Registering ["bar"] next to ["foo"]: the entry is appended. *)
Example register_bar :
  registerCustomWebSocketListener "bar" failing with_foo
  = (Normal true,
     mkWorld 0 [mkClient "10.0.0.1" None (Some 0%nat) OPEN] (Some [0%nat])
             [mkHandler "foo" quiet; mkHandler "bar" failing]
             {[ 0%nat := mkTimer 5000 0 ]} 1,
     [LogInfo ("Registered custom WebSocket listener for plugin "
               ++ quoted "bar")%string]).
Proof. reflexivity. Qed.

Lemma role_transitions_witness :
  sockets accepted !! 0%nat = Some (mkClient "10.0.0.1" None (Some 0%nat) OPEN)
  /\ JSON_parse (stringify subscribe) = Normal subscribe
  /\ invokes "subscribe-events" subscribe = true
  /\ (onMessage 0 (stringify subscribe) accepted
      = (Normal tt, subscribing 0 accepted,
         [incoming accepted 0 (stringify subscribe);
          ClearTimeout (Some 0%nat);
          LogInfo "Websocket Event Connection from 10.0.0.1";
          WsSend 0 (JSON_stringify
                      (JObject [("type", JString "response"); ("id", JNumber 1);
                                ("name", JString "success"); ("data", JNull)]))])).
Proof.
  split; [reflexivity|]. split; [reflexivity|]. split; [reflexivity|].
  destruct (role_transitions accepted 0%nat
              (mkClient "10.0.0.1" None (Some 0%nat) OPEN)
              (stringify subscribe) subscribe) as (_ & Hfresh & _);
    [reflexivity..|].
  destruct (Hfresh eq_refl) as (Hrun & _). exact Hrun.
Defined.

(** Subscribing twice: success, then "socket already subscribed". *)
Example subscribe_twice :
  option_map snd
    (run accepted [EvMessage 0 (stringify subscribe); EvMessage 0 (stringify subscribe)])
  = Some [incoming accepted 0 (stringify subscribe);
          ClearTimeout (Some 0%nat);
          LogInfo "Websocket Event Connection from 10.0.0.1";
          WsSend 0 (stringify (ResponseMessage (JNumber 1) "success" JNull));
          incoming accepted 0 (stringify subscribe);
          WsSend 0 (stringify (ResponseMessage (JNumber 1) "error"
                                 (JString "socket already subscribed")))].
Proof. reflexivity. Qed.

Lemma registration_watchdog_witness :
  reachable accepted
  /\ (forall h t, timers accepted !! h = Some t ->
        (now accepted < due t -> step accepted (EvTimeout h) = None)
        /\ (due t <= now accepted ->
            exists w' c,
              step accepted (EvTimeout h) =
                Some (Normal tt, w',
                      [timed_out accepted (target t);
                       WsClose (target t) 4000 "Registration timed out"])
              /\ timers w' !! h = None
              /\ sockets accepted !! target t = Some c /\ type c = None)).
Proof.
  split; [apply accepted_reachable|].
  apply (registration_watchdog accepted accepted_reachable).
Defined.

Lemma timer_cancellation_witness :
  step accepted (EvClose 0)
  = Some (Normal tt,
          mkWorld 0 [mkClient "10.0.0.1" None (Some 0%nat) CLOSED] (Some []) []
                  {[ 0%nat := mkTimer 5000 0 ]} 1,
          [])
  /\ (forall ws, EvClose 0 = EvClose ws ->
        cleared [] = []
        /\ timers (mkWorld 0 [mkClient "10.0.0.1" None (Some 0%nat) CLOSED] (Some []) []
                           {[ 0%nat := mkTimer 5000 0 ]} 1)
           = timers accepted).
Proof.
  split; [reflexivity|].
  apply (timer_cancellation accepted (EvClose 0) (Normal tt)
           (mkWorld 0 [mkClient "10.0.0.1" None (Some 0%nat) CLOSED] (Some []) []
                    {[ 0%nat := mkTimer 5000 0 ]} 1) []).
  reflexivity.
Defined.

(** A socket that closes before subscribing: no [clearTimeout] is ever
    called, its watchdog is still pending after the close, and five
    seconds after the accept it fires on the closed socket. *)
Lemma watchdog_outlives_socket :
  option_map (fun r => (cleared (snd r), timers (fst r) !! 0%nat))
    (run initial [EvCreateServer; EvConnection "10.0.0.1"; EvClose 0])
  = Some ([], Some (mkTimer 5000 0))
  /\ option_map snd
       (run initial [EvCreateServer; EvConnection "10.0.0.1"; EvClose 0;
                     EvElapse 5000; EvTimeout 0])
     = Some [SetTimeout 0 5000;
             LogInfo "Unknown Websocket connection timed out from 10.0.0.1";
             WsClose 0 4000 "Registration timed out"].
Proof. split; reflexivity. Qed.

(** A callback that throws: the socket of the frame is closed with the
    callback's error message. *)
Example failing_callback :
  onMessage 0 (stringify plugin_Foo)
    (set_customHandlers accepted [mkHandler "foo" failing])
  = (Normal tt,
     closing 0 (set_customHandlers accepted [mkHandler "foo" failing]),
     [incoming accepted 0 (stringify plugin_Foo);
      CallbackCall "foo" (JString "hi");
      WsClose 0 4006 "plugin failed"]).
Proof. reflexivity. Qed.

(** An empty [pluginName]. *)
Example empty_pluginName :
  snd (onMessage 0 (stringify plugin_empty) with_foo)
  = [incoming with_foo 0 (stringify plugin_empty);
     WsSend 0 (stringify (ResponseMessage (JNumber 1) "error"
                            (JString "Must specify pluginName")))].
Proof. reflexivity. Qed.

(** ** The further properties on concrete runs *)

Lemma unregister_forgets_witness :
  reachable with_foo
  /\ JSON_parse (stringify plugin_Foo) = Normal plugin_Foo
  /\ invokes "plugin" plugin_Foo = true
  /\ field plugin_Foo "pluginName" = JString "Foo"
  /\ toLowerCase "Foo" = toLowerCase "FOO"
  /\ lookup_handler (customHandlers with_foo) "Foo" = Some (mkHandler "foo" quiet)
  /\ snd (fst (unregisterCustomWebSocketListener "FOO" with_foo)) = accepted
  /\ lookup_handler (customHandlers accepted) "Foo" = None
  /\ onMessage 0 (stringify plugin_Foo) accepted
     = (Normal tt, accepted,
        [incoming accepted 0 (stringify plugin_Foo);
         WsSend 0 (JSON_stringify
                     (JObject [("type", JString "response"); ("id", JNumber 1);
                               ("name", JString "error");
                               ("data", JString "Unknown plugin name specified")]))]).
Proof.
  split; [apply with_foo_reachable|]. do 6 (split; [reflexivity|]).
  assert ("Foo" <> EmptyString) as Hne by discriminate.
  exact (unregister_forgets with_foo "FOO" 0%nat (stringify plugin_Foo) plugin_Foo
           "Foo" with_foo_reachable eq_refl eq_refl eq_refl Hne eq_refl).
Defined.

(** Unregistering ["FOO"] removes the entry registered as ["foo"]. *)
Example unregister_FOO :
  unregisterCustomWebSocketListener "FOO" with_foo
  = (Normal true, accepted,
     [LogInfo ("Unregistered custom WebSocket listener for plugin "
               ++ quoted "FOO")%string]).
Proof. reflexivity. Qed.

Lemma register_then_invoke_witness :
  lookup_handler (customHandlers accepted) "foo" = None
  /\ invokes "plugin" plugin_Foo = true
  /\ field plugin_Foo "pluginName" = JString "Foo"
  /\ toLowerCase "Foo" = toLowerCase "foo"
  /\ handleMessage 0 plugin_Foo
       (snd (fst (registerCustomWebSocketListener "foo" failing accepted)))
     = (failing (field plugin_Foo "data"),
        snd (fst (registerCustomWebSocketListener "foo" failing accepted)),
        [CallbackCall "foo" (field plugin_Foo "data")]).
Proof.
  do 4 (split; [reflexivity|]).
  apply (register_then_invoke accepted "foo" failing 0%nat plugin_Foo "Foo");
    [reflexivity|reflexivity|reflexivity|discriminate|reflexivity].
Defined.

Lemma register_unregister_witness :
  lookup_handler (customHandlers accepted) "foo" = None
  /\ toLowerCase "FOO" = toLowerCase "foo"
  /\ snd (fst (unregisterCustomWebSocketListener "FOO"
                 (snd (fst (registerCustomWebSocketListener "foo" quiet accepted)))))
     = accepted.
Proof.
  do 2 (split; [reflexivity|]).
  apply (register_unregister accepted "foo" "FOO" quiet); reflexivity.
Defined.

Lemma registry_calls_local_witness :
  same_name "bar" "foo" = false
  /\ lookup_handler
       (customHandlers (snd (fst (unregisterCustomWebSocketListener "bar" with_foo))))
       "foo"
     = lookup_handler (customHandlers with_foo) "foo".
Proof.
  split; [reflexivity|].
  apply (registry_calls_local with_foo "bar" quiet "foo"). reflexivity.
Defined.


Lemma unknown_command_witness :
  @JSON_parse runtime2 (stringify ping) = Normal ping
  /\ is_invoke ping = true
  /\ strict_eq_string (field ping "name") "subscribe-events" = false
  /\ strict_eq_string (field ping "name") "plugin" = false
  /\ @onMessage runtime2 0 (stringify ping) accepted
     = (Normal tt, accepted,
        [@incoming runtime2 accepted 0 (stringify ping);
         WsSend 0 (stringify
                     (JObject [("type", JString "response"); ("id", JNumber 7);
                               ("name", JString "error");
                               ("data", JString "unknown command invocation")]))]).
Proof.
  do 4 (split; [reflexivity|]).
  apply (@unknown_command runtime2 accepted 0%nat (stringify ping) ping);
    reflexivity.
Defined.


(** The same callback throwing a short message: the socket is closed and
    the listener returns. *)
Example short_message_is_caught :
  onMessage 0 (stringify plugin_Foo)
    (mkWorld 0 [mkClient "10.0.0.1" None (Some 0%nat) OPEN] (Some [0%nat])
             [mkHandler "foo" failing] {[ 0%nat := mkTimer 5000 0 ]} 1)
  = (Normal tt,
     mkWorld 0 [mkClient "10.0.0.1" None (Some 0%nat) CLOSING] (Some [0%nat])
             [mkHandler "foo" failing] {[ 0%nat := mkTimer 5000 0 ]} 1,
     [incoming accepted 0 (stringify plugin_Foo);
      CallbackCall "foo" (JString "hi");
      WsClose 0 4006 "plugin failed"]).
Proof. reflexivity. Qed.

Lemma only_replies_and_broadcasts_witness :
  step crowd (EvTriggerEvent flaky "test" JNull)
  = Some (Normal tt, crowd,
          [WsSend 0 (stringify (EventMessage "test" JNull));
           WsSend 1 (stringify (EventMessage "test" JNull));
           LogError "write EPIPE"])
  /\ In (1%nat, stringify (EventMessage "test" JNull))
        (sent [WsSend 0 (stringify (EventMessage "test" JNull));
               WsSend 1 (stringify (EventMessage "test" JNull));
               LogError "write EPIPE"])
  /\ ((exists data, EvTriggerEvent flaky "test" JNull = EvMessage 1 data)
      \/ (exists sendErr eventType payload,
            EvTriggerEvent flaky "test" JNull
            = EvTriggerEvent sendErr eventType payload
            /\ eligible crowd 1 = true
            /\ stringify (EventMessage "test" JNull)
               = JSON_stringify (EventMessage eventType payload))).
Proof.
  split; [reflexivity|]. split; [right; left; reflexivity|].
  apply (only_replies_and_broadcasts crowd (EvTriggerEvent flaky "test" JNull)
           (Normal tt) crowd
           [WsSend 0 (stringify (EventMessage "test" JNull));
            WsSend 1 (stringify (EventMessage "test" JNull));
            LogError "write EPIPE"] 1%nat);
    [reflexivity|right; left; reflexivity].
Defined.

Lemma subscribe_then_broadcast_witness :
  server crowd = Some [0; 1; 2; 3]%nat /\ In 3%nat [0; 1; 2; 3]%nat
  /\ sockets crowd !! 3%nat = Some (mkClient "10.0.0.4" None (Some 3%nat) OPEN)
  /\ JSON_parse (stringify subscribe) = Normal subscribe
  /\ invokes "subscribe-events" subscribe = true
  /\ (forall p, ~ In (3%nat, p) (sent (snd (triggerEvent flaky "test" JNull crowd))))
  /\ In (3%nat, JSON_stringify (EventMessage "test" JNull))
        (sent (snd (triggerEvent flaky "test" JNull
                      (snd (fst (onMessage 3 (stringify subscribe) crowd)))))).
Proof.
  split; [reflexivity|]. split; [do 3 right; left; reflexivity|].
  do 3 (split; [reflexivity|]).
  apply (subscribe_then_broadcast crowd 3%nat
           (mkClient "10.0.0.4" None (Some 3%nat) OPEN) [0; 1; 2; 3]%nat
           (stringify subscribe) subscribe flaky "test" JNull);
    try reflexivity.
  do 3 right; left; reflexivity.
Defined.

Lemma closed_socket_gets_no_events_witness :
  reachable accepted
  /\ step accepted (EvMessage 0 "oops")
     = Some (Normal tt, closing 0 accepted,
             [incoming accepted 0 "oops"; WsClose 0 4006 "Unexpected token"])
  /\ forall evs w2 effs2 sendErr eventType payload p,
       run (closing 0 accepted) evs = Some (w2, effs2) ->
       ~ In (0%nat, p) (sent (snd (triggerEvent sendErr eventType payload w2))).
Proof.
  split; [apply accepted_reachable|]. split; [reflexivity|].
  apply (closed_socket_gets_no_events accepted (EvMessage 0 "oops") (Normal tt)
           (closing 0 accepted)
           [incoming accepted 0 "oops"; WsClose 0 4006 "Unexpected token"]
           0%nat 4006 "Unexpected token");
    [apply accepted_reachable|reflexivity|left; reflexivity].
Defined.

Lemma role_is_unset_or_events_witness :
  reachable accepted
  /\ sockets accepted !! 0%nat = Some (mkClient "10.0.0.1" None (Some 0%nat) OPEN)
  /\ (type (mkClient "10.0.0.1" None (Some 0%nat) OPEN) = None
      \/ type (mkClient "10.0.0.1" None (Some 0%nat) OPEN) = Some "events").
Proof.
  split; [apply accepted_reachable|]. split; [reflexivity|].
  apply (role_is_unset_or_events accepted 0%nat);
    [apply accepted_reachable|reflexivity].
Defined.

Lemma unregistered_socket_is_watched_witness :
  reachable accepted
  /\ sockets accepted !! 0%nat = Some (mkClient "10.0.0.1" None (Some 0%nat) OPEN)
  /\ exists h t,
       Some 0%nat = Some h /\ timers accepted !! h = Some t
       /\ target t = 0%nat /\ due t <= now accepted + 5000.
Proof.
  split; [apply accepted_reachable|]. split; [reflexivity|].
  apply (unregistered_socket_is_watched accepted 0%nat
           (mkClient "10.0.0.1" None (Some 0%nat) OPEN));
    [apply accepted_reachable|reflexivity..].
Defined.

Lemma watchdog_closes_once_witness :
  reachable accepted
  /\ run accepted [EvElapse 5000; EvTimeout 0; EvElapse 5000]
     = Some (mkWorld 10000 [mkClient "10.0.0.1" None (Some 0%nat) CLOSING]
                     (Some [0%nat]) [] ∅ 1,
             [LogInfo "Unknown Websocket connection timed out from 10.0.0.1";
              WsClose 0 4000 "Registration timed out"])
  /\ (length (watchdog_closes 0
                [LogInfo "Unknown Websocket connection timed out from 10.0.0.1";
                 WsClose 0 4000 "Registration timed out"]) <= 1)%nat.
Proof.
  split; [apply accepted_reachable|]. split; [reflexivity|].
  apply (watchdog_closes_once accepted [EvElapse 5000; EvTimeout 0; EvElapse 5000]
           (mkWorld 10000 [mkClient "10.0.0.1" None (Some 0%nat) CLOSING]
                    (Some [0%nat]) [] ∅ 1));
    [apply accepted_reachable|reflexivity].
Defined.

Lemma loadEffects_order_witness :
  Loaders.loadEffects string nat require_but_api count_registration 0%nat
  = (Throw (mkError "Error" "Cannot find module"), 3%nat,
     [Loaders.Require "./builtin/active-user-lists";
      Loaders.Register "./builtin/active-user-lists";
      Loaders.Require "./builtin/activity-feed-alert";
      Loaders.Register "./builtin/activity-feed-alert";
      Loaders.Require "./builtin/add-quote";
      Loaders.Register "./builtin/add-quote";
      Loaders.Require "./builtin/api"])
  /\ forall q, In q Loaders.twitchEffectPaths ->
       ~ In q ["./builtin/active-user-lists"; "./builtin/activity-feed-alert";
               "./builtin/add-quote"; "./builtin/api"].
Proof.
  split; [reflexivity|]. intros q.
  destruct (loadEffects_order string nat require_but_api count_registration 0%nat
              (Throw (mkError "Error" "Cannot find module")) 3%nat
              [Loaders.Require "./builtin/active-user-lists";
               Loaders.Register "./builtin/active-user-lists";
               Loaders.Require "./builtin/activity-feed-alert";
               Loaders.Register "./builtin/activity-feed-alert";
               Loaders.Require "./builtin/add-quote";
               Loaders.Register "./builtin/add-quote";
               Loaders.Require "./builtin/api"] eq_refl)
    as (_ & _ & _ & Hfail).
  apply (Hfail (mkError "Error" "Cannot find module") "./builtin/api" q);
    [reflexivity|reflexivity|].
  do 3 right. left. reflexivity.
Defined.

Lemma loadIntegrations_order_witness :
  Loaders.loadIntegrations string nat (fun path => Normal path) refuse_discord 0%nat
  = (Throw (mkError "TypeError" "invalid integration"), 1%nat,
     [Loaders.Require "./builtin/aws/aws.js";
      Loaders.Register "./builtin/aws/aws.js";
      Loaders.Require "./builtin/discord/discord.js";
      Loaders.Register "./builtin/discord/discord.js"])
  /\ Loaders.went_through string nat (fun path => Normal path) refuse_discord
       Loaders.integrationPaths 0%nat
       (Throw (mkError "TypeError" "invalid integration")) 1%nat
       [Loaders.Require "./builtin/aws/aws.js";
        Loaders.Register "./builtin/aws/aws.js";
        Loaders.Require "./builtin/discord/discord.js";
        Loaders.Register "./builtin/discord/discord.js"].
Proof.
  split; [reflexivity|].
  destruct (loadIntegrations_order string nat (fun path => Normal path)
              refuse_discord 0%nat
              (Throw (mkError "TypeError" "invalid integration")) 1%nat
              [Loaders.Require "./builtin/aws/aws.js";
               Loaders.Register "./builtin/aws/aws.js";
               Loaders.Require "./builtin/discord/discord.js";
               Loaders.Register "./builtin/discord/discord.js"] eq_refl)
    as (Hwent & _).
  exact Hwent.
Defined.

(** All eight integrations load. *)
Example loadIntegrations_all :
  Loaders.loadIntegrations string nat (fun path => Normal path) count_registration 0%nat
  = (Normal tt, 8%nat,
     flat_map (fun p => [Loaders.Require p; Loaders.Register p])
              Loaders.integrationPaths).
Proof. reflexivity. Qed.
